(** * String analyzer service: the analysis and query engine of [server.js]

    A shallow embedding of [computeProperties], [parseNaturalLanguage] and
    the Express handlers of [server.js], with the properties of the
    specification stated over it.

    Conventions.
    - A JavaScript string is its sequence of UTF-16 code units, a [list N].
      Operations that JavaScript performs on code units ([length],
      [split('')], regular expressions without the [u] flag) are written
      on that list; operations that JavaScript performs on code points
      (the string iterator behind [for ... of] and [new Set(str)]) go
      through [chars].
    - The built-ins [String.prototype.toLowerCase], [crypto]'s SHA-256 and
      [decodeURIComponent] are not code of the repository: they are
      variables of the section that holds the service.
    - A JavaScript number is a [number]: an integer that a double holds,
      or one of the two infinities; [NaN] is the [None] of an
      [option number]. [parseInt] and the additions of the source round to
      the nearest double, ties to even, and overflow to [Infinity]
      ([double_of_Z]). The two zeros are one: nothing in the service tells
      them apart. *)

From Stdlib Require Import ZArith NArith List String Ascii Lia Bool.
From stdpp Require Import base decidable option list gmap fin_maps fin_sets sorting.

Local Open Scope N_scope.

(** ** JavaScript strings *)

Module JS.

(** A string value: UTF-16 code units. *)
Definition jsstring := list N.

(** A string literal of the source (Basic Latin only). *)
Definition lit (s : string) : jsstring :=
  List.map N_of_ascii (list_ascii_of_string s).

(** [a === b] on two strings. *)
Definition str_eqb (a b : jsstring) : bool := bool_decide (a = b).

(** Lead and trail surrogates. *)
Definition is_high_surrogate (c : N) : bool := (0xD800 <=? c) && (c <=? 0xDBFF).
Definition is_low_surrogate (c : N) : bool := (0xDC00 <=? c) && (c <=? 0xDFFF).

(** The string iterator ([String.prototype[Symbol.iterator]]): one element
    per code point; a lead surrogate followed by a trail surrogate is one
    element of two code units, any other code unit (a lone surrogate too) is
    an element of its own. *)
Fixpoint chars (s : jsstring) : list jsstring :=
  match s with
  | [] => []
  | c :: rest =>
      match rest with
      | d :: rest' =>
          if is_high_surrogate c && is_low_surrogate d
          then [c; d] :: chars rest'
          else [c] :: chars rest
      | [] => [[c]]
      end
  end.

(** [\s] of a regular expression, which is also what [trim] and [parseInt]
    strip: WhiteSpace and LineTerminator of ECMAScript. *)
Definition is_space (c : N) : bool :=
  ((0x09 <=? c) && (c <=? 0x0D)) || (c =? 0x20) || (c =? 0xA0) || (c =? 0x1680)
  || ((0x2000 <=? c) && (c <=? 0x200A)) || (c =? 0x2028) || (c =? 0x2029)
  || (c =? 0x202F) || (c =? 0x205F) || (c =? 0x3000) || (c =? 0xFEFF).

(** [\d] and [[a-z]]. *)
Definition is_digit (c : N) : bool := (48 <=? c) && (c <=? 57).
Definition is_lower_az (c : N) : bool := (97 <=? c) && (c <=? 122).

(** [s.replace(/\s/g, '')]. *)
Definition remove_spaces (s : jsstring) : jsstring :=
  List.filter (fun c => negb (is_space c)) s.

(** [s.split('').reverse().join('')]: reversal of the code units. *)
Definition reverse_units (s : jsstring) : jsstring := List.rev s.

(** [s.trim()]. *)
Fixpoint trim_start (s : jsstring) : jsstring :=
  match s with
  | c :: rest => if is_space c then trim_start rest else s
  | [] => []
  end.

Definition trim (s : jsstring) : jsstring :=
  List.rev (trim_start (List.rev (trim_start s))).

(** [s.split(/\s+/)]: the pieces between maximal runs of white space. The
    accumulator [cur] is the piece being read, in reverse; [in_sep] tells
    that the previous code unit belonged to a separator. An empty input
    gives the one empty piece. *)
Fixpoint split_spaces_aux (s : jsstring) (cur : jsstring) (in_sep : bool)
  : list jsstring :=
  match s with
  | [] => [List.rev cur]
  | c :: rest =>
      if is_space c
      then if in_sep
           then split_spaces_aux rest cur true
           else List.rev cur :: split_spaces_aux rest [] true
      else split_spaces_aux rest (c :: cur) false
  end.

Definition split_spaces (s : jsstring) : list jsstring :=
  split_spaces_aux s [] false.

(** [s.includes(sub)]. *)
Fixpoint starts_with (sub s : jsstring) : bool :=
  match sub, s with
  | [], _ => true
  | a :: sub', b :: s' => (a =? b) && starts_with sub' s'
  | _ :: _, [] => false
  end.

Fixpoint includes (s sub : jsstring) : bool :=
  starts_with sub s ||
  match s with
  | [] => false
  | _ :: rest => includes rest sub
  end.

(** The value of a digit in a radix, if it is one. *)
Definition digit_value (radix c : N) : option N :=
  let v :=
    if (48 <=? c) && (c <=? 57) then Some (c - 48)
    else if (97 <=? c) && (c <=? 122) then Some (c - 97 + 10)
    else if (65 <=? c) && (c <=? 90) then Some (c - 65 + 10)
    else None in
  match v with
  | Some d => if d <? radix then Some d else None
  | None => None
  end.

(** The longest prefix of digits, read most significant first. The result
    is [None] when there is no digit at all. *)
Fixpoint read_digits (radix : N) (s : jsstring) (acc : option N) : option N :=
  match s with
  | c :: rest =>
      match digit_value radix c with
      | Some d => read_digits radix rest (Some (radix * default 0 acc + d))
      | None => acc
      end
  | [] => acc
  end.

(** The numbers of the service: the integers that a double holds and the
    two infinities. *)
Inductive number : Type :=
| Finite (z : Z)
| Infinity
| NegInfinity.

Definition negate (a : number) : number :=
  match a with
  | Finite z => Finite (- z)
  | Infinity => NegInfinity
  | NegInfinity => Infinity
  end.

(** [a <= b] and [a == b] on numbers. *)
Definition num_leb (a b : number) : bool :=
  match a, b with
  | NegInfinity, _ => true
  | _, Infinity => true
  | Finite x, Finite y => (x <=? y)%Z
  | _, _ => false
  end.

Definition num_eqb (a b : number) : bool :=
  match a, b with
  | Finite x, Finite y => (x =? y)%Z
  | Infinity, Infinity => true
  | NegInfinity, NegInfinity => true
  | _, _ => false
  end.

(** A length or a count as a number; it is far below 2^53. *)
Definition num_of_nat (n : nat) : number := Finite (Z.of_nat n).

(** A natural number cut to 53 significant binary digits, ties to even: a
    number of at most 53 binary digits is kept; a longer one keeps its 53
    leading digits [q], rounded up when what is cut off is more than half a
    unit of the last kept digit, or exactly half and [q] is odd. *)
Definition round53 (n : N) : N :=
  let bits := N.size n in
  if bits <=? 53 then n
  else
    let e := bits - 53 in
    let q := N.shiftr n e in
    let r := n - N.shiftl q e in
    let half := N.shiftl 1 (e - 1) in
    let q' := if (half <? r) || ((r =? half) && N.odd q) then q + 1 else q in
    N.shiftl q' e.

(** The double nearest to an integer: the rounded integer when it is
    below 2^1024, an infinity otherwise. *)
Definition double_of_N (n : N) : number :=
  let r := round53 n in
  if N.size r <=? 1024 then Finite (Z.of_N r) else Infinity.

Definition double_of_Z (z : Z) : number :=
  match z with
  | Z0 => Finite 0
  | Zpos p => double_of_N (Npos p)
  | Zneg p => negate (double_of_N (Npos p))
  end.

(** [a + k] for an integer [k]. *)
Definition num_add (a : number) (k : Z) : number :=
  match a with
  | Finite z => double_of_Z (z + k)
  | Infinity => Infinity
  | NegInfinity => NegInfinity
  end.

(** [parseInt(s)] without a radix: leading white space, an optional sign,
    an optional [0x] / [0X] prefix, then the longest prefix of digits;
    [NaN] ([None]) when no digit follows. The number returned is the
    double nearest to the integer read. *)
Definition parseInt (s : jsstring) : option number :=
  let s1 := trim_start s in
  let '(neg, s2) :=
    match s1 with
    | c :: r =>
        if c =? 45 then (true, r)
        else if c =? 43 then (false, r)
        else (false, s1)
    | [] => (false, s1)
    end in
  let '(radix, s3) :=
    match s2 with
    | c :: d :: r =>
        if (c =? 48) && ((d =? 120) || (d =? 88)) then (16, r) else (10, s2)
    | _ => (10, s2)
    end in
  match read_digits radix s3 None with
  | Some n => Some (if neg then negate (double_of_N n) else double_of_N n)
  | None => None
  end.

(** [toLowerCase] on the Basic Latin block; every other code unit is
    carried over. It coincides with the built-in on every string whose
    cased letters are all Basic Latin. *)
Definition lower_unit (c : N) : N :=
  if (65 <=? c) && (c <=? 90) then c + 32 else c.

Definition toLowerCase_latin (s : jsstring) : jsstring := List.map lower_unit s.

Definition is_ascii (c : N) : bool := c <? 128.

End JS.

Export JS.

(** ** Regular expressions of the source

    The fragment the source uses: literals, classes, a greedy [+] on a
    class, sequence, alternation, a greedy [?] and one capturing group.
    Matching is the backtracking matcher of ECMAScript in continuation
    style: the continuation receives what is left of the input and the
    capture so far. *)

Module Regex.

Inductive regex : Type :=
| REmpty
| RChar (c : N)
| RClass (p : N -> bool)
| RPlus (p : N -> bool)
| RSeq (r1 r2 : regex)
| RAlt (r1 r2 : regex)
| ROpt (r : regex)
| RGroup (r : regex).

(** The literal text [s] as a regular expression. *)
Fixpoint RLit (s : jsstring) : regex :=
  match s with
  | [] => REmpty
  | c :: rest => RSeq (RChar c) (RLit rest)
  end.

Definition capture := option jsstring.
Definition cont := jsstring -> capture -> option capture.

(** [p+], greedy: as many code units as possible, giving one back at a
    time while the rest of the pattern fails. *)
Fixpoint match_plus (p : N -> bool) (s : jsstring) (cap : capture) (k : cont)
  : option capture :=
  match s with
  | c :: rest =>
      if p c then
        match match_plus p rest cap k with
        | Some r => Some r
        | None => k rest cap
        end
      else None
  | [] => None
  end.

Fixpoint match_re (r : regex) (s : jsstring) (cap : capture) (k : cont)
  : option capture :=
  match r with
  | REmpty => k s cap
  | RChar c =>
      match s with
      | d :: rest => if c =? d then k rest cap else None
      | [] => None
      end
  | RClass p =>
      match s with
      | d :: rest => if p d then k rest cap else None
      | [] => None
      end
  | RPlus p => match_plus p s cap k
  | RSeq r1 r2 => match_re r1 s cap (fun rest cap' => match_re r2 rest cap' k)
  | RAlt r1 r2 =>
      match match_re r1 s cap k with
      | Some res => Some res
      | None => match_re r2 s cap k
      end
  | ROpt r1 =>
      match match_re r1 s cap k with
      | Some res => Some res
      | None => k s cap
      end
  | RGroup r1 =>
      match_re r1 s cap
        (fun rest _ =>
           k rest (Some (take (List.length s - List.length rest)%nat s)))
  end.

(** A match that starts at the first code unit of [s]. *)
Definition match_here (r : regex) (s : jsstring) : option capture :=
  match_re r s None (fun _ cap => Some cap).

(** [s.match(r)] for a pattern without the [g] flag: the leftmost match;
    the result is the text of group 1, [None] when nothing matches. *)
Fixpoint exec (r : regex) (s : jsstring) : option capture :=
  match match_here r s with
  | Some cap => Some cap
  | None =>
      match s with
      | [] => None
      | _ :: rest => exec r rest
      end
  end.

(** A pattern without a capturing group. *)
Fixpoint groupless (r : regex) : bool :=
  match r with
  | REmpty | RChar _ | RClass _ | RPlus _ => true
  | RSeq r1 r2 | RAlt r1 r2 => groupless r1 && groupless r2
  | ROpt r1 => groupless r1
  | RGroup _ => false
  end.

(** [/(\d+)\s+word/] *)
Definition re_word_count : regex :=
  RSeq (RGroup (RPlus is_digit)) (RSeq (RPlus is_space) (RLit (lit "word"))).

(** [/longer than (\d+)/] *)
Definition re_longer : regex :=
  RSeq (RLit (lit "longer than ")) (RGroup (RPlus is_digit)).

(** [/shorter than (\d+)/] *)
Definition re_shorter : regex :=
  RSeq (RLit (lit "shorter than ")) (RGroup (RPlus is_digit)).

(** [/contain(?:ing|s)?\s+(?:the\s+)?(?:letter\s+)?([a-z])/] *)
Definition re_contains : regex :=
  RSeq (RLit (lit "contain"))
    (RSeq (ROpt (RAlt (RLit (lit "ing")) (RLit (lit "s"))))
       (RSeq (RPlus is_space)
          (RSeq (ROpt (RSeq (RLit (lit "the")) (RPlus is_space)))
             (RSeq (ROpt (RSeq (RLit (lit "letter")) (RPlus is_space)))
                (RGroup (RClass is_lower_az)))))).

End Regex.

Export Regex.

(** ** Data model *)

(** The [properties] object that [computeProperties] returns. The
    [character_frequency_map] is a plain object used as a map from a
    one-code-point string to its count. *)
Record props : Type := Props {
  prop_length : nat;
  prop_is_palindrome : bool;
  prop_unique_characters : nat;
  prop_word_count : nat;
  prop_sha256_hash : jsstring;
  prop_character_frequency_map : gmap jsstring nat
}.

(** A document of [stringSchema]. *)
Record doc : Type := Doc {
  doc_id : jsstring;
  doc_value : jsstring;
  doc_properties : props;
  doc_created_at : Z
}.

(** The [filters] object of [parseNaturalLanguage] and the
    [filtersApplied] object of the list handler: every key is optional. *)
Record filters : Type := Filters {
  flt_is_palindrome : option bool;
  flt_min_length : option number;
  flt_max_length : option number;
  flt_word_count : option number;
  flt_contains_character : option jsstring
}.

Definition no_filters : filters := Filters None None None None None.

(** [Object.keys(f).length]. *)
Definition key_count {A} (o : option A) : nat :=
  match o with
  | Some _ => 1
  | None => 0
  end.

Definition filters_keys (f : filters) : nat :=
  (key_count (flt_is_palindrome f) + key_count (flt_min_length f)
   + key_count (flt_max_length f) + key_count (flt_word_count f)
   + key_count (flt_contains_character f))%nat.

Definition set_is_palindrome (b : bool) (f : filters) : filters :=
  Filters (Some b) (flt_min_length f) (flt_max_length f) (flt_word_count f)
          (flt_contains_character f).
Definition set_min_length (n : number) (f : filters) : filters :=
  Filters (flt_is_palindrome f) (Some n) (flt_max_length f) (flt_word_count f)
          (flt_contains_character f).
Definition set_max_length (n : number) (f : filters) : filters :=
  Filters (flt_is_palindrome f) (flt_min_length f) (Some n) (flt_word_count f)
          (flt_contains_character f).
Definition set_word_count (n : number) (f : filters) : filters :=
  Filters (flt_is_palindrome f) (flt_min_length f) (flt_max_length f) (Some n)
          (flt_contains_character f).
Definition set_contains_character (c : jsstring) (f : filters) : filters :=
  Filters (flt_is_palindrome f) (flt_min_length f) (flt_max_length f)
          (flt_word_count f) (Some c).

(** The MongoDB query object that the two list handlers build: equality on
    [properties.is_palindrome] and [properties.word_count], [$gte] and
    [$lte] on [properties.length], and [{$exists: true, $gte: 1}] on one
    key of [properties.character_frequency_map]. *)
Record dbquery : Type := DbQuery {
  q_is_palindrome : option bool;
  q_length_gte : option number;
  q_length_lte : option number;
  q_word_count : option number;
  q_has_character : option jsstring
}.

Definition no_query : dbquery := DbQuery None None None None None.

Definition holds {A} (o : option A) (p : A -> bool) : bool :=
  match o with
  | Some a => p a
  | None => true
  end.

Definition matches (q : dbquery) (d : doc) : bool :=
  let p := doc_properties d in
  holds (q_is_palindrome q) (fun b => Bool.eqb (prop_is_palindrome p) b)
  && holds (q_length_gte q) (fun n => num_leb n (num_of_nat (prop_length p)))
  && holds (q_length_lte q) (fun n => num_leb (num_of_nat (prop_length p)) n)
  && holds (q_word_count q) (fun n => num_eqb (num_of_nat (prop_word_count p)) n)
  && holds (q_has_character q)
       (fun c => match prop_character_frequency_map p !! c with
                 | Some n => (1 <=? n)%nat
                 | None => false
                 end).

(** A value of [req.query] or of a field of [req.body]: [null], a string,
    or any other value (an array for a repeated parameter, an object, a
    number, a boolean), which the handlers only ever look at through
    [typeof], truthiness and [ToString]; [to_string] is its [ToString]
    image and [truthy] its truthiness. An absent key ([undefined]) is the
    [None] of an [option jsvalue]. *)
Inductive jsvalue : Type :=
| VNull
| VStr (s : jsstring)
| VOther (to_string : jsstring) (truthy : bool).

Definition ToString (v : jsvalue) : jsstring :=
  match v with
  | VNull => lit "null"
  | VStr s => s
  | VOther to_string _ => to_string
  end.

(** [v === s] for a string [s]. *)
Definition strict_equals (v : jsvalue) (s : jsstring) : bool :=
  match v with
  | VStr x => str_eqb x s
  | _ => false
  end.

(** [!v] for a value that may be [undefined]. *)
Definition falsy (v : option jsvalue) : bool :=
  match v with
  | None => true
  | Some VNull => true
  | Some (VStr s) => match s with [] => true | _ => false end
  | Some (VOther _ t) => negb t
  end.

(** [req.query]: the five parameters of [GET /strings] and the [query]
    parameter of the natural-language route. *)
Record query_params : Type := QueryParams {
  qp_is_palindrome : option jsvalue;
  qp_min_length : option jsvalue;
  qp_max_length : option jsvalue;
  qp_word_count : option jsvalue;
  qp_contains_character : option jsvalue;
  qp_query : option jsvalue
}.

(** ** Responses *)

Inductive body : Type :=
| BError (error : string)
| BDoc (d : doc)
| BList (data : list doc) (count : nat) (filters_applied : filters)
| BInterpreted (data : list doc) (count : nat) (original : jsstring)
               (parsed_filters : filters)
| BHealthy
| BEmpty
| BExpress.

Record response : Type := Response { status : nat; payload : body }.

Definition dquote : string := String (ascii_of_nat 34) EmptyString.

(** The error responses of the handlers, named after the error kinds of
    the specification. *)
Definition MissingValue : response :=
  Response 400 (BError (String.append "Missing "
    (String.append dquote (String.append "value"
      (String.append dquote " field in request body"))))).
Definition InvalidType : response :=
  Response 422 (BError (String.append "Invalid data type for "
    (String.append dquote (String.append "value"
      (String.append dquote " (must be string)"))))).
Definition Conflict : response :=
  Response 409 (BError "String already exists in the system").
Definition NotFound : response :=
  Response 404 (BError "String does not exist in the system").
Definition InvalidValueFor (field : string) : response :=
  Response 400 (BError (String.append "Invalid value for " field)).
Definition NotSingleCharacter : response :=
  Response 400 (BError "contains_character must be a single character").
Definition MissingQuery : response :=
  Response 400 (BError (String.append "Missing "
    (String.append dquote (String.append "query"
      (String.append dquote " parameter"))))).
Definition UnparsableQuery : response :=
  Response 400 (BError "Unable to parse natural language query").
Definition InternalError : response :=
  Response 500 (BError "Internal server error").

(** The four responses that are the [InvalidFilterValue] of the
    specification. *)
Definition InvalidFilterValue (r : response) : Prop :=
  r = InvalidValueFor "min_length" \/ r = InvalidValueFor "max_length"
  \/ r = InvalidValueFor "word_count" \/ r = NotSingleCharacter.

(** ** The record store

    The collection of the [String] model, in insertion order. [_id] is the
    primary key and [value] carries a unique index; an insert that
    violates either is refused by the database (error E11000), which the
    handler sees as an exception. [value] is also [required]: Mongoose
    refuses to save a document whose value is the empty string. *)

Definition store := list doc.

Inductive store_call : Type :=
| CallFindById (id : jsstring)
| CallFindOne (value : jsstring)
| CallFind (q : dbquery)
| CallSave (d : doc)
| CallFindOneAndDelete (value : jsstring).

(** A handler: it reads and writes the store, either answers early
    ([inl], a [return res.status(..).json(..)] or an exception caught by
    the [catch] of every handler) or goes on with a value, and leaves the
    list of the store calls it made. *)
Definition handler (A : Type) : Type :=
  store -> (response + A) * store * list store_call.

Definition ret {A} (a : A) : handler A := fun st => (inr a, st, []).

Definition reply {A} (r : response) : handler A := fun st => (inl r, st, []).

(** An exception inside [try]: the [catch] answers 500. *)
Definition throw {A} : handler A := reply InternalError.

Definition bind {A B} (m : handler A) (k : A -> handler B) : handler B :=
  fun st =>
    match m st with
    | (inl r, st', tr) => (inl r, st', tr)
    | (inr a, st', tr) =>
        match k a st' with
        | (x, st'', tr') => (x, st'', tr ++ tr')
        end
    end.

Notation "'await' x <- m 'in' k" := (bind m (fun x => k))
  (at level 10, x name, m at level 100, k at level 200).

(** What the client and the store see of a handler that has run. *)
Definition run (h : handler response) (st : store)
  : response * store * list store_call :=
  match h st with
  | (inl r, st', tr) => (r, st', tr)
  | (inr r, st', tr) => (r, st', tr)
  end.

Definition findById (id : jsstring) : handler (option doc) :=
  fun st =>
    (inr (List.find (fun d => str_eqb (doc_id d) id) st), st, [CallFindById id]).

Definition findOne (value : jsstring) : handler (option doc) :=
  fun st =>
    (inr (List.find (fun d => str_eqb (doc_value d) value) st), st,
     [CallFindOne value]).

Definition duplicate_key (d : doc) (st : store) : bool :=
  existsb (fun e => str_eqb (doc_id e) (doc_id d)
                    || str_eqb (doc_value e) (doc_value d)) st.

(** The validators of [stringSchema], which [save] runs before the
    insert: [value] is [required], and the required validator of a string
    path refuses the empty string. *)
Definition validates (d : doc) : bool :=
  match doc_value d with
  | [] => false
  | _ :: _ => true
  end.

(** [newString.save()]: a document that the validators refuse, or whose
    insert the database refuses, makes [save] throw. *)
Definition save (d : doc) : handler unit :=
  fun st =>
    if negb (validates d) then (inl InternalError, st, [CallSave d])
    else if duplicate_key d st then (inl InternalError, st, [CallSave d])
    else (inr tt, st ++ [d], [CallSave d]).

(** Removal of the first document with the given value. *)
Fixpoint remove_value (value : jsstring) (st : store) : store :=
  match st with
  | [] => []
  | d :: rest =>
      if str_eqb (doc_value d) value then rest
      else d :: remove_value value rest
  end.

Definition findOneAndDelete (value : jsstring) : handler (option doc) :=
  fun st =>
    (inr (List.find (fun d => str_eqb (doc_value d) value) st),
     remove_value value st, [CallFindOneAndDelete value]).

(** [.sort({ created_at: -1 })]; documents of one timestamp stay in the
    order the sort leaves them in, which MongoDB does not fix. *)
Definition newer_first (a b : doc) : Prop :=
  (doc_created_at b <= doc_created_at a)%Z.

#[local] Instance newer_first_dec : RelDecision newer_first :=
  fun a b => decide (doc_created_at b <= doc_created_at a)%Z.

Definition find (q : dbquery) : handler (list doc) :=
  fun st =>
    (inr (merge_sort newer_first (List.filter (matches q) st)), st, [CallFind q]).

(** ** Built-ins for closed examples

    The service is stated for every [toLowerCase], digest and
    [decodeURIComponent]. Closed examples use [toLowerCase_latin] and the
    two functions below. *)

Module Builtins.

(** [n] escapes [%XX] at the head of [s]: their bytes and what follows. *)
Fixpoint read_escapes (n : nat) (s : jsstring) : option (list N * jsstring) :=
  match n with
  | O => Some ([], s)
  | S n' =>
      match s with
      | 37 :: h :: l :: rest =>
          match digit_value 16 h, digit_value 16 l with
          | Some a, Some b =>
              match read_escapes n' rest with
              | Some (bs, r) => Some (a * 16 + b :: bs, r)
              | None => None
              end
          | _, _ => None
          end
      | _ => None
      end
  end.

Definition is_continuation (b : N) : bool := (0x80 <=? b) && (b <=? 0xBF).

(** The code point of a UTF-8 sequence of a lead byte and its continuation
    bytes; [None] when the sequence is not well-formed UTF-8. *)
Definition utf8_code_point (lead : N) (conts : list N) : option N :=
  if forallb is_continuation conts then
    let payload := fold_left (fun acc b => acc * 64 + (b - 0x80)) conts in
    match conts with
    | [_] =>
        let cp := payload (lead - 0xC0) in
        if 0x80 <=? cp then Some cp else None
    | [_; _] =>
        let cp := payload (lead - 0xE0) in
        if (0x800 <=? cp) && negb ((0xD800 <=? cp) && (cp <=? 0xDFFF))
        then Some cp else None
    | [_; _; _] =>
        let cp := payload (lead - 0xF0) in
        if (0x10000 <=? cp) && (cp <=? 0x10FFFF) then Some cp else None
    | _ => None
    end
  else None.

Definition utf16_units (cp : N) : jsstring :=
  if cp <? 0x10000 then [cp]
  else [0xD800 + (cp - 0x10000) / 0x400; 0xDC00 + (cp - 0x10000) mod 0x400].

(** The number of continuation bytes that a lead byte announces. *)
Definition continuation_count (lead : N) : option nat :=
  if (0xC0 <=? lead) && (lead <=? 0xDF) then Some 1%nat
  else if (0xE0 <=? lead) && (lead <=? 0xEF) then Some 2%nat
  else if (0xF0 <=? lead) && (lead <=? 0xF7) then Some 3%nat
  else None.

Fixpoint decode_fuel (fuel : nat) (s : jsstring) : option jsstring :=
  match fuel with
  | O => None
  | S fuel' =>
      match s with
      | [] => Some []
      | c :: rest =>
          if c =? 37 then
            match read_escapes 1 s with
            | Some ([b], rest) =>
                if b <? 0x80 then option_map (cons b) (decode_fuel fuel' rest)
                else
                  match continuation_count b with
                  | Some n =>
                      match read_escapes n rest with
                      | Some (conts, rest') =>
                          match utf8_code_point b conts with
                          | Some cp =>
                              option_map (app (utf16_units cp))
                                (decode_fuel fuel' rest')
                          | None => None
                          end
                      | None => None
                      end
                  | None => None
                  end
            | _ => None
            end
          else option_map (cons c) (decode_fuel fuel' rest)
      end
  end.

(** [decodeURIComponent]: every escape is a byte of a UTF-8 text; a
    malformed escape or ill-formed UTF-8 throws ([None]). One unit of fuel
    per code unit of input is enough. *)
Definition decodeURIComponent_utf8 (s : jsstring) : option jsstring :=
  decode_fuel (S (List.length s)) s.

Definition hex_digit (d : N) : N := if d <? 10 then 48 + d else 87 + d.

(** An injective stand-in for the SHA-256 digest: the four hexadecimal
    digits of every code unit. No theorem depends on which digest it is. *)
Definition digest_of_units (s : jsstring) : jsstring :=
  List.flat_map
    (fun c => [hex_digit (c / 4096 mod 16); hex_digit (c / 256 mod 16);
               hex_digit (c / 16 mod 16); hex_digit (c mod 16)]) s.

End Builtins.

Export Builtins.

(** ** The service *)

Section Service.

(** The built-ins that the service calls: [String.prototype.toLowerCase],
    [crypto.createHash('sha256').update(s).digest('hex')] and
    [decodeURIComponent], which throws [URIError] ([None]) on a malformed
    escape. *)
Variable toLowerCase : jsstring -> jsstring.
Variable sha256_hex : jsstring -> jsstring.
Variable decodeURIComponent : jsstring -> option jsstring.

(** [charFreqMap[char] || 0]. *)
Definition or_zero (o : option nat) : nat :=
  match o with
  | Some n => if (n =? 0)%nat then 0%nat else n
  | None => 0%nat
  end.

(** The loop [for (const char of str) { ... }] over a map [m]. *)
Definition count_chars (m : gmap jsstring nat) (cs : list jsstring)
  : gmap jsstring nat :=
  foldl (fun m char => <[char := (or_zero (m !! char) + 1)%nat]> m) m cs.

Definition computeProperties (str : jsstring) : props :=
  let sha256 := sha256_hex str in
  let normalized := remove_spaces (toLowerCase str) in
  let isPalindrome := str_eqb normalized (reverse_units normalized) in
  let uniqueChars := size (list_to_set (chars str) : gset jsstring) in
  let wordCount :=
    List.length
      (List.filter (fun w => (0 <? List.length w)%nat)
         (split_spaces (trim str))) in
  let charFreqMap := count_chars ∅ (chars str) in
  {| prop_length := List.length str;
     prop_is_palindrome := isPalindrome;
     prop_unique_characters := uniqueChars;
     prop_word_count := wordCount;
     prop_sha256_hash := sha256;
     prop_character_frequency_map := charFreqMap |}.

(** [parseInt] of the text of a capturing group. *)
Definition parseInt_group (cap : capture) : option number :=
  match cap with
  | Some s => parseInt s
  | None => None
  end.

(** The rules of [parseNaturalLanguage], in the order of the source; each
    takes the lowercased query and the [filters] object so far. A filter
    field holds a number, so a rule has nothing to store for [NaN]: the
    properties below show that [parseInt] of a captured group is never
    [NaN]. *)
Definition rule_word_count (lowerQuery : jsstring) (f : filters) : filters :=
  if includes lowerQuery (lit "single word") then set_word_count (Finite 1) f
  else
    match exec re_word_count lowerQuery with
    | Some wordCountMatch =>
        match parseInt_group wordCountMatch with
        | Some n => set_word_count n f
        | None => f
        end
    | None => f
    end.

Definition rule_palindrome (lowerQuery : jsstring) (f : filters) : filters :=
  if includes lowerQuery (lit "palindrom") then set_is_palindrome true f else f.

Definition rule_longer (lowerQuery : jsstring) (f : filters) : filters :=
  match exec re_longer lowerQuery with
  | Some longerMatch =>
      match parseInt_group longerMatch with
      | Some n => set_min_length (num_add n 1) f
      | None => f
      end
  | None => f
  end.

Definition rule_shorter (lowerQuery : jsstring) (f : filters) : filters :=
  match exec re_shorter lowerQuery with
  | Some shorterMatch =>
      match parseInt_group shorterMatch with
      | Some n => set_max_length (num_add n (-1)) f
      | None => f
      end
  | None => f
  end.

Definition rule_contains (lowerQuery : jsstring) (f : filters) : filters :=
  match exec re_contains lowerQuery with
  | Some (Some c) => set_contains_character c f
  | _ => f
  end.

Definition rule_first_vowel (lowerQuery : jsstring) (f : filters) : filters :=
  if includes lowerQuery (lit "first vowel")
  then set_contains_character (lit "a") f
  else f.

Definition parseNaturalLanguage (query : jsstring) : filters :=
  let lowerQuery := toLowerCase query in
  rule_first_vowel lowerQuery
    (rule_contains lowerQuery
       (rule_shorter lowerQuery
          (rule_longer lowerQuery
             (rule_palindrome lowerQuery
                (rule_word_count lowerQuery no_filters))))).

(** *** [POST /strings]

    The handler awaits the store twice. [post_check] is the handler up to
    the answer of [findById]; [post_insert] is what runs once that answer
    is in: the document is built ([created_at] defaults to the clock, [now])
    and saved. *)
Definition post_check (value : option jsvalue) : handler (jsstring * props) :=
  match value with
  | None => reply MissingValue
  | Some VNull => reply MissingValue
  | Some (VOther _ _) => reply InvalidType
  | Some (VStr value) =>
      let properties := computeProperties value in
      let sha256Hash := prop_sha256_hash properties in
      await existing <- findById sha256Hash in
      match existing with
      | Some _ => reply Conflict
      | None => ret (value, properties)
      end
  end.

Definition post_insert (now : Z) (checked : jsstring * props)
  : handler response :=
  let '(value, properties) := checked in
  let newString :=
    {| doc_id := prop_sha256_hash properties;
       doc_value := value;
       doc_properties := properties;
       doc_created_at := now |} in
  await _ <- save newString in
  ret (Response 201 (BDoc newString)).

Definition post_strings (value : option jsvalue) (now : Z) : handler response :=
  await checked <- post_check value in post_insert now checked.

(** *** [GET /strings/:string_value] *)
Definition get_string (string_value : jsstring) : handler response :=
  match decodeURIComponent string_value with
  | None => throw
  | Some decodedValue =>
      await stringDoc <- findOne decodedValue in
      match stringDoc with
      | None => reply NotFound
      | Some d => ret (Response 200 (BDoc d))
      end
  end.

(** *** [GET /strings]

    Each block of the handler takes the [query] and [filtersApplied]
    objects so far and either answers 400 or hands them on. *)
Definition list_state : Type := dbquery * filters.

Definition with_is_palindrome (p : query_params) (s : list_state)
  : handler list_state :=
  let '(query, filtersApplied) := s in
  match qp_is_palindrome p with
  | Some is_palindrome =>
      let isPalin := strict_equals is_palindrome (lit "true") in
      ret (DbQuery (Some isPalin) (q_length_gte query) (q_length_lte query)
             (q_word_count query) (q_has_character query),
           set_is_palindrome isPalin filtersApplied)
  | None => ret s
  end.

Definition with_min_length (p : query_params) (s : list_state)
  : handler list_state :=
  let '(query, filtersApplied) := s in
  match qp_min_length p with
  | Some min_length =>
      match parseInt (ToString min_length) with
      | None => reply (InvalidValueFor "min_length")
      | Some minLen =>
          ret (DbQuery (q_is_palindrome query) (Some minLen) (q_length_lte query)
                 (q_word_count query) (q_has_character query),
               set_min_length minLen filtersApplied)
      end
  | None => ret s
  end.

Definition with_max_length (p : query_params) (s : list_state)
  : handler list_state :=
  let '(query, filtersApplied) := s in
  match qp_max_length p with
  | Some max_length =>
      match parseInt (ToString max_length) with
      | None => reply (InvalidValueFor "max_length")
      | Some maxLen =>
          ret (DbQuery (q_is_palindrome query) (q_length_gte query) (Some maxLen)
                 (q_word_count query) (q_has_character query),
               set_max_length maxLen filtersApplied)
      end
  | None => ret s
  end.

Definition with_word_count (p : query_params) (s : list_state)
  : handler list_state :=
  let '(query, filtersApplied) := s in
  match qp_word_count p with
  | Some word_count =>
      match parseInt (ToString word_count) with
      | None => reply (InvalidValueFor "word_count")
      | Some wc =>
          ret (DbQuery (q_is_palindrome query) (q_length_gte query)
                 (q_length_lte query) (Some wc) (q_has_character query),
               set_word_count wc filtersApplied)
      end
  | None => ret s
  end.

Definition with_contains_character (p : query_params) (s : list_state)
  : handler list_state :=
  let '(query, filtersApplied) := s in
  match qp_contains_character p with
  | Some contains_character =>
      match contains_character with
      | VStr c =>
          if negb (List.length c =? 1)%nat then reply NotSingleCharacter
          else
            ret (DbQuery (q_is_palindrome query) (q_length_gte query)
                   (q_length_lte query) (q_word_count query) (Some c),
                 set_contains_character c filtersApplied)
      | _ => reply NotSingleCharacter
      end
  | None => ret s
  end.

Definition get_strings (p : query_params) : handler response :=
  await s1 <- with_is_palindrome p (no_query, no_filters) in
  await s2 <- with_min_length p s1 in
  await s3 <- with_max_length p s2 in
  await s4 <- with_word_count p s3 in
  await s5 <- with_contains_character p s4 in
  let '(query, filtersApplied) := s5 in
  await results <- find query in
  ret (Response 200 (BList results (List.length results) filtersApplied)).

(** *** [GET /strings/filter-by-natural-language] *)
Definition filters_query (parsedFilters : filters) : dbquery :=
  {| q_is_palindrome := flt_is_palindrome parsedFilters;
     q_length_gte := flt_min_length parsedFilters;
     q_length_lte := flt_max_length parsedFilters;
     q_word_count := flt_word_count parsedFilters;
     q_has_character := flt_contains_character parsedFilters |}.

Definition filter_by_natural_language (p : query_params) : handler response :=
  let nlQuery := qp_query p in
  if falsy nlQuery then reply MissingQuery
  else
    match nlQuery with
    | Some (VStr nlQuery) =>
        let parsedFilters := parseNaturalLanguage nlQuery in
        if (filters_keys parsedFilters =? 0)%nat then reply UnparsableQuery
        else
          let dbQuery := filters_query parsedFilters in
          await results <- find dbQuery in
          ret (Response 200
                 (BInterpreted results (List.length results) nlQuery
                    parsedFilters))
    | _ => throw
    end.

(** *** [DELETE /strings/:string_value] *)
Definition delete_string (string_value : jsstring) : handler response :=
  match decodeURIComponent string_value with
  | None => throw
  | Some decodedValue =>
      await result <- findOneAndDelete decodedValue in
      match result with
      | None => reply NotFound
      | Some _ => ret (Response 204 BEmpty)
      end
  end.

(** *** [GET /health] *)
Definition health : handler response := ret (Response 200 BHealthy).

(** *** Routing

    The routes in the order [server.js] registers them. Express tries them
    in that order and runs the first whose method and path match; no
    handler of the source calls [next], so a later route is never tried
    once an earlier one has matched. A path is the list of its segments; a
    static segment is compared without regard to Basic Latin case (the
    default of Express), a parameter matches any non-empty segment. *)
Inductive method : Type := GET | POST | DELETE.

Inductive segment : Type :=
| Static (s : jsstring)
| Param.

Inductive endpoint : Type :=
| CreateString | GetString | ListStrings | FilterByNaturalLanguage
| DeleteString | Health.

Definition routes : list (method * list segment * endpoint) :=
  [ (POST, [Static (lit "strings")], CreateString);
    (GET, [Static (lit "strings"); Param], GetString);
    (GET, [Static (lit "strings")], ListStrings);
    (GET, [Static (lit "strings"); Static (lit "filter-by-natural-language")],
     FilterByNaturalLanguage);
    (DELETE, [Static (lit "strings"); Param], DeleteString);
    (GET, [Static (lit "health")], Health) ].

Definition method_eqb (a b : method) : bool :=
  match a, b with
  | GET, GET | POST, POST | DELETE, DELETE => true
  | _, _ => false
  end.

(** The match of a path against a pattern; the result carries the raw
    text of the parameter, if the pattern has one. *)
Fixpoint match_path (pat : list segment) (path : list jsstring)
  (param : option jsstring) : option (option jsstring) :=
  match pat, path with
  | [], [] => Some param
  | Static s :: pat', x :: path' =>
      if str_eqb (toLowerCase_latin s) (toLowerCase_latin x)
      then match_path pat' path' param
      else None
  | Param :: pat', x :: path' =>
      match x with
      | [] => None
      | _ => match_path pat' path' (Some x)
      end
  | _, _ => None
  end.

Fixpoint first_route (rs : list (method * list segment * endpoint))
  (m : method) (path : list jsstring) : option (endpoint * option jsstring) :=
  match rs with
  | [] => None
  | (m', pat, e) :: rest =>
      if method_eqb m' m then
        match match_path pat path None with
        | Some param => Some (e, param)
        | None => first_route rest m path
        end
      else first_route rest m path
  end.

Record request : Type := Request {
  req_method : method;
  req_path : list jsstring;
  req_query : query_params;
  req_body_value : option jsvalue
}.

(** [req.params.string_value]: Express decodes the raw segment and
    answers 400 itself when that fails. *)
Definition with_param (param : option jsstring)
  (h : jsstring -> handler response) : handler response :=
  match param with
  | Some raw =>
      match decodeURIComponent raw with
      | Some string_value => h string_value
      | None => reply (Response 400 BExpress)
      end
  | None => throw
  end.

Definition app (req : request) (now : Z) : handler response :=
  match first_route routes (req_method req) (req_path req) with
  | None => reply (Response 404 BExpress)
  | Some (e, param) =>
      match e with
      | CreateString => post_strings (req_body_value req) now
      | GetString => with_param param get_string
      | ListStrings => get_strings (req_query req)
      | FilterByNaturalLanguage => filter_by_natural_language (req_query req)
      | DeleteString => with_param param delete_string
      | Health => health
      end
  end.

(** *** Two requests in flight

    A [POST /strings] request gives the event loop back at each [await]:
    between its [findById] and its [save] another request may run. A task
    is a request at one of these points. *)
Inductive task : Type :=
| Arrived (value : option jsvalue)
| Checked (checked : jsstring * props)
| Answered (r : response).

Definition task_step (now : Z) (t : task) (st : store) : task * store :=
  match t with
  | Arrived value =>
      match post_check value st with
      | (inl r, st', _) => (Answered r, st')
      | (inr checked, st', _) => (Checked checked, st')
      end
  | Checked checked =>
      match run (post_insert now checked) st with
      | (r, st', _) => (Answered r, st')
      end
  | Answered r => (t, st)
  end.

(** Two tasks and the store they share; a schedule says which of the two
    moves next ([false] the first, [true] the second). *)
Fixpoint interleave (now1 now2 : Z) (schedule : list bool)
  (t1 t2 : task) (st : store) : task * task * store :=
  match schedule with
  | [] => (t1, t2, st)
  | false :: rest =>
      match task_step now1 t1 st with
      | (t1', st') => interleave now1 now2 rest t1' t2 st'
      end
  | true :: rest =>
      match task_step now2 t2 st with
      | (t2', st') => interleave now1 now2 rest t1 t2' st'
      end
  end.

(** A task that has answered 201; a task that is at some point of the
    creation of [v]; a store that has a document under the digest of [v]. *)
Definition is_created (t : task) : bool :=
  match t with
  | Answered r => (status r =? 201)%nat
  | _ => false
  end.

Definition creation_of (v : jsstring) (t : task) : Prop :=
  match t with
  | Arrived value => value = Some (VStr v)
  | Checked checked => checked = (v, computeProperties v)
  | Answered _ => True
  end.

Definition has_digest (v : jsstring) (st : store) : bool :=
  existsb (fun x => str_eqb (doc_id x) (sha256_hex v)) st.

(** What holds of two creations of [v] in flight at every moment: a 201
    has been answered only if the document is in the store, and at most
    one 201 has been answered. *)
Definition in_flight (v : jsstring) (t1 t2 : task) (st : store) : Prop :=
  creation_of v t1 /\ creation_of v t2
  /\ (is_created t1 || is_created t2 = true -> has_digest v st = true)
  /\ is_created t1 && is_created t2 = false.

(** *** Invariant of the store

    Every document was inserted by [post_strings]: its [_id] is the digest
    of its value and no two documents share an [_id]. *)
Definition store_ok (st : store) : Prop :=
  NoDup (List.map doc_id st)
  /\ Forall (fun d => doc_id d = sha256_hex (doc_value d)) st.

(** The number of documents whose value is [v]. *)
Definition count_value (v : jsstring) (st : store) : nat :=
  List.length (List.filter (fun d => str_eqb (doc_value d) v) st).

(** The stores that the service can reach from the empty collection. *)
Inductive reachable : store -> Prop :=
| reach_empty : reachable []
| reach_step st req now :
    reachable st -> reachable (snd (fst (run (app req now) st))).

(** *** The specification's side of the analyzer

    The number of code points of a value, its distinct code points, the
    sum of the counts of a frequency map, and the palindrome law as the
    specification words it (the normalized text against the reversal of
    its code-point sequence). *)
Definition code_points (s : jsstring) : nat := List.length (chars s).

Definition distinct_code_points (s : jsstring) : gset jsstring :=
  list_to_set (chars s).

Definition sum_counts (m : gmap jsstring nat) : nat :=
  map_fold (fun _ n acc => (n + acc)%nat) 0%nat m.

Definition reverse_code_points (s : jsstring) : jsstring :=
  List.concat (List.rev (chars s)).

Definition spec_is_palindrome (s : jsstring) : Prop :=
  let normalized := remove_spaces (toLowerCase s) in
  normalized = reverse_code_points normalized.

(** A text without surrogate code units: all of it is in the Basic
    Multilingual Plane. *)
Definition is_surrogate (c : N) : bool := is_high_surrogate c || is_low_surrogate c.

Definition bmp_only (s : jsstring) : Prop := Forall (fun c => is_surrogate c = false) s.

(** U+1F600, one code point and two code units. *)
Definition grinning_face : jsstring := [0xD83D; 0xDE00].

(** A text that is an integer: an optional sign, then decimal digits and
    nothing else. *)
Definition digits_only (s : jsstring) : bool :=
  match s with
  | [] => false
  | _ :: _ => forallb is_digit s
  end.

Definition integer_text (s : jsstring) : bool :=
  match s with
  | c :: rest =>
      if (c =? 45) || (c =? 43) then digits_only rest else digits_only s
  | [] => false
  end.

(** A query parameter that is present and that [parseInt] turns into
    [NaN]; a [contains_character] that is present and is not one
    character, be it counted in code units or in code points. *)
Definition not_an_integer (o : option jsvalue) : Prop :=
  exists v, o = Some v /\ parseInt (ToString v) = None.

Definition not_one_character (o : option jsvalue) : Prop :=
  exists v, o = Some v /\
    forall c, v = VStr c -> List.length c <> 1%nat \/ code_points c <> 1%nat.

(** What the properties below need to know of the built-ins: on a text
    of Basic Latin code units [toLowerCase] is [toLowerCase_latin], and a
    text without a percent sign decodes to itself. *)
Definition lowers_basic_latin : Prop :=
  forall s, forallb is_ascii s = true -> toLowerCase s = toLowerCase_latin s.

Definition decodes_unescaped : Prop :=
  forall s, forallb (fun c => negb (c =? 37)) s = true ->
            decodeURIComponent s = Some s.

(** The query parameters [p] without [is_palindrome]. *)
Definition without_is_palindrome (p : query_params) : query_params :=
  {| qp_is_palindrome := None;
     qp_min_length := qp_min_length p;
     qp_max_length := qp_max_length p;
     qp_word_count := qp_word_count p;
     qp_contains_character := qp_contains_character p;
     qp_query := qp_query p |}.

(** Case analysis on the parameters that [get_strings] reads. *)
Ltac list_cases :=
  repeat match goal with
    | |- context [match parseInt ?x with Some _ => _ | None => _ end] =>
        destruct (parseInt x) eqn:?
    | |- context [match ?x with Some _ => _ | None => _ end] =>
        is_var x; destruct x
    | |- context [match ?v with VNull => _ | VStr _ => _ | VOther _ _ => _ end] =>
        is_var v; destruct v
    | |- context [(List.length ?c =? 1)%nat] =>
        destruct (List.length c =? 1)%nat eqn:?
    end.

Definition has_value (v : jsstring) (st : store) : Prop :=
  exists d, d ∈ st /\ doc_value d = v.

(** Case analysis on the segments of a path and on the comparisons of
    [match_path]. *)
Ltac route_cases :=
  repeat first
    [ discriminate
    | match goal with
      | |- context [match ?x with [] => _ | _ :: _ => _ end] =>
          is_var x; destruct x; cbn [match_path]
      | |- context [str_eqb ?a (toLowerCase_latin [])] =>
          let v := eval vm_compute in (str_eqb a (toLowerCase_latin [])) in
          change (str_eqb a (toLowerCase_latin [])) with v; cbv iota
      | |- context [if str_eqb ?a ?b then _ else _] => destruct (str_eqb a b)
      end ].

Definition natural_language_path : list jsstring :=
  [lit "strings"; lit "filter-by-natural-language"].

(** *** Further notions used by the properties

    The number of maximal runs of code units that are not white space
    ([in_word] tells that the previous code unit was not white space), and
    the number of times a code point occurs in a value. *)
Fixpoint word_starts (s : jsstring) (in_word : bool) : nat :=
  match s with
  | [] => 0%nat
  | c :: rest =>
      if is_space c then word_starts rest false
      else ((if in_word then 0 else 1) + word_starts rest true)%nat
  end.

Definition occurrences (c : jsstring) (s : jsstring) : nat :=
  List.length (List.filter (fun x => str_eqb x c) (chars s)).

(** The document that [POST /strings] builds for a value. *)
Definition new_document (value : jsstring) (now : Z) : doc :=
  {| doc_id := sha256_hex value;
     doc_value := value;
     doc_properties := computeProperties value;
     doc_created_at := now |}.

(** A store whose documents carry the properties of their value. *)
Definition store_derived (st : store) : Prop :=
  Forall (fun d => doc_properties d = computeProperties (doc_value d)) st.

(** A pattern that matches somewhere in a text; a lowercased query on
    which at least one rule of [parseNaturalLanguage] has its trigger. *)
Definition matched (r : regex) (s : jsstring) : bool :=
  match exec r s with
  | Some _ => true
  | None => false
  end.

Definition fires (lowerQuery : jsstring) : bool :=
  includes lowerQuery (lit "single word")
  || matched re_word_count lowerQuery
  || includes lowerQuery (lit "palindrom")
  || matched re_longer lowerQuery
  || matched re_shorter lowerQuery
  || matched re_contains lowerQuery
  || includes lowerQuery (lit "first vowel").

(** The shape of the filters that the interpreter can produce. *)
Definition interpreter_shape (f : filters) : Prop :=
  flt_is_palindrome f <> Some false
  /\ (forall n, flt_word_count f = Some n -> num_leb (Finite 0) n = true)
  /\ (forall n, flt_min_length f = Some n -> num_leb (Finite 1) n = true)
  /\ (forall n, flt_max_length f = Some n -> num_leb (Finite (-1)) n = true)
  /\ (forall c, flt_contains_character f = Some c ->
                exists u, c = [u] /\ is_lower_az u = true).

(** What a document has to satisfy to pass a filter. *)
Definition passes (f : filters) (d : doc) : Prop :=
  let p := doc_properties d in
  (forall b, flt_is_palindrome f = Some b -> prop_is_palindrome p = b)
  /\ (forall n, flt_min_length f = Some n ->
        num_leb n (num_of_nat (prop_length p)) = true)
  /\ (forall n, flt_max_length f = Some n ->
        num_leb (num_of_nat (prop_length p)) n = true)
  /\ (forall n, flt_word_count f = Some n -> num_of_nat (prop_word_count p) = n)
  /\ (forall c, flt_contains_character f = Some c ->
        exists k, prop_character_frequency_map p !! c = Some k /\ (1 <= k)%nat).

(** A request without any query parameter but the given ones. *)
Definition no_params : query_params :=
  {| qp_is_palindrome := None; qp_min_length := None; qp_max_length := None;
     qp_word_count := None; qp_contains_character := None; qp_query := None |}.

(** The store calls that write. *)
Definition is_write (c : store_call) : bool :=
  match c with
  | CallSave _ | CallFindOneAndDelete _ => true
  | _ => false
  end.

(** ** Properties *)

(** *** Strings and code points *)

Lemma str_eqb_refl (a : jsstring) : str_eqb a a = true.
Proof. unfold str_eqb. by apply bool_decide_eq_true. Qed.

Lemma str_eqb_eq (a b : jsstring) : str_eqb a b = true <-> a = b.
Proof. unfold str_eqb. apply bool_decide_eq_true. Qed.

Lemma str_eqb_neq (a b : jsstring) : str_eqb a b = false <-> a <> b.
Proof. unfold str_eqb. apply bool_decide_eq_false. Qed.

Lemma chars_singleton (c : N) : chars [c] = [[c]].
Proof. reflexivity. Qed.


Lemma chars_bmp (s : jsstring) :
  bmp_only s -> chars s = List.map (fun c => [c]) s.
Proof.
  induction 1 as [|c s Hc Hs IH]; [reflexivity|].
  destruct s as [|d s']; [reflexivity|].
  change (chars (c :: d :: s')) with
    (if is_high_surrogate c && is_low_surrogate d
     then [c; d] :: chars s' else [c] :: chars (d :: s')).
  unfold is_surrogate in Hc. apply orb_false_iff in Hc as [-> _].
  simpl andb. cbv iota. rewrite IH. reflexivity.
Qed.

Lemma concat_rev_singletons (s : jsstring) :
  List.concat (List.rev (List.map (fun c => [c]) s)) = List.rev s.
Proof.
  induction s as [|c s IH]; [reflexivity|].
  simpl. rewrite concat_app, IH. simpl. reflexivity.
Qed.

Lemma reverse_code_points_bmp (s : jsstring) :
  bmp_only s -> reverse_code_points s = reverse_units s.
Proof.
  intros H. unfold reverse_code_points, reverse_units.
  rewrite (chars_bmp s H). apply concat_rev_singletons.
Qed.

(** On a text whose normalization has no surrogate, the flag that
    [computeProperties] computes is the palindrome law of the
    specification. *)
Lemma is_palindrome_bmp (s : jsstring) :
  bmp_only (remove_spaces (toLowerCase s)) ->
  prop_is_palindrome (computeProperties s) = true <-> spec_is_palindrome s.
Proof.
  intros H. unfold spec_is_palindrome. simpl.
  rewrite (reverse_code_points_bmp _ H). apply str_eqb_eq.
Qed.

(** *** The frequency map *)

Lemma or_zero_some (n : nat) : or_zero (Some n) = n.
Proof. simpl. destruct n; reflexivity. Qed.

Lemma count_chars_dom (cs : list jsstring) (m : gmap jsstring nat) :
  dom (count_chars m cs) = dom m ∪ list_to_set cs.
Proof.
  revert m. induction cs as [|c cs IH]; intros m; simpl.
  - by rewrite (right_id_L ∅ (∪)).
  - unfold count_chars in *. simpl. rewrite IH, dom_insert_L.
    rewrite (comm_L (∪) {[c]} (dom m)). by rewrite (assoc_L (∪)).
Qed.

Lemma sum_counts_step (m : gmap jsstring nat) (c : jsstring) :
  sum_counts (<[c := (or_zero (m !! c) + 1)%nat]> m) = S (sum_counts m).
Proof.
  unfold sum_counts. destruct (m !! c) as [n|] eqn:Hc.
  - rewrite or_zero_some.
    rewrite <- (insert_delete_eq m c (n + 1)%nat).
    rewrite map_fold_insert_L.
    + rewrite (map_fold_delete_L _ _ c n m); [lia | intros; lia | done].
    + intros; lia.
    + apply lookup_delete_eq.
  - rewrite map_fold_insert_L; [simpl; lia | intros; lia | done].
Qed.

Lemma count_chars_sum (cs : list jsstring) (m : gmap jsstring nat) :
  sum_counts (count_chars m cs) = (sum_counts m + List.length cs)%nat.
Proof.
  revert m. induction cs as [|c cs IH]; intros m; simpl.
  - lia.
  - unfold count_chars in *. simpl. rewrite IH, sum_counts_step. lia.
Qed.

(** The count stored under a key is the number of times the code point
    occurs in the value. *)
Lemma count_chars_lookup (cs : list jsstring) (m : gmap jsstring nat)
  (c : jsstring) :
  or_zero (count_chars m cs !! c)
  = (or_zero (m !! c) + List.length (List.filter (fun x => str_eqb x c) cs))%nat.
Proof.
  revert m. induction cs as [|x cs IH]; intros m; simpl.
  - lia.
  - unfold count_chars in *. simpl. rewrite IH.
    destruct (str_eqb x c) eqn:E.
    + apply str_eqb_eq in E as ->. rewrite lookup_insert_eq, or_zero_some.
      simpl. lia.
    + apply str_eqb_neq in E. rewrite lookup_insert_ne by done. lia.
Qed.

(** C9. For every value, the frequency map of [computeProperties] has as
    many keys as [unique_characters] says, and its counts add up to the
    number of code points of the value. *)
Theorem frequency_map_totals (s : jsstring) :
  size (prop_character_frequency_map (computeProperties s))
  = prop_unique_characters (computeProperties s)
  /\ sum_counts (prop_character_frequency_map (computeProperties s))
     = code_points s.
Proof.
  simpl. split.
  - rewrite <- size_dom. rewrite count_chars_dom, dom_empty_L.
    by rewrite (left_id_L ∅ (∪)).
  - rewrite count_chars_sum. unfold sum_counts, code_points.
    rewrite map_fold_empty. lia.
Qed.

(** [unique_characters] is the number of distinct code points and the
    keys of the frequency map are those code points. *)
Lemma unique_characters_code_points (s : jsstring) :
  prop_unique_characters (computeProperties s) = size (distinct_code_points s)
  /\ dom (prop_character_frequency_map (computeProperties s))
     = distinct_code_points s.
Proof.
  simpl. split; [reflexivity|].
  rewrite count_chars_dom, dom_empty_L. unfold distinct_code_points.
  by rewrite (left_id_L ∅ (∪)).
Qed.

(** [length] is the number of code units: it is the number of code points
    only when no surrogate pair occurs. *)
Lemma length_code_points_bmp (s : jsstring) :
  bmp_only s -> prop_length (computeProperties s) = code_points s.
Proof.
  intros H. simpl. unfold code_points. rewrite (chars_bmp s H).
  by rewrite length_map.
Qed.

(** C1, at the value U+1F600. The value is one code point, and
    [unique_characters] and the frequency map count it as one, but
    [length] is [str.length], the number of UTF-16 code units: 2. *)
Theorem length_counts_code_units :
  code_points grinning_face = 1%nat
  /\ prop_length (computeProperties grinning_face) = 2%nat
  /\ prop_unique_characters (computeProperties grinning_face) = 1%nat
  /\ prop_character_frequency_map (computeProperties grinning_face)
     = {[ grinning_face := 1%nat ]}.
Proof.
  split; [reflexivity|]. split; [reflexivity|]. split.
  - unfold computeProperties. cbn [prop_unique_characters].
    change (chars grinning_face) with [grinning_face].
    rewrite size_list_to_set; [reflexivity | apply NoDup_singleton].
  - reflexivity.
Qed.

(** *** The palindrome flag *)

Lemma remove_spaces_blank (s : jsstring) :
  forallb is_space s = true -> remove_spaces s = [].
Proof.
  induction s as [|c s IH]; [reflexivity|].
  simpl. intros Hs. apply andb_true_iff in Hs as [Hc Hs].
  unfold remove_spaces in *. simpl. rewrite Hc. simpl. auto.
Qed.

(** The empty value and a value of white space only are palindromes, as
    soon as [toLowerCase] leaves white space alone. *)
Lemma blank_is_palindrome (s : jsstring) :
  toLowerCase s = s -> forallb is_space s = true ->
  prop_is_palindrome (computeProperties s) = true.
Proof.
  intros Hl Hs. simpl. rewrite Hl, (remove_spaces_blank s Hs). reflexivity.
Qed.

(** C2, at the value U+1F600, which [toLowerCase] leaves as it is. Its
    normalization is one code point, equal to the reversal of its
    code-point sequence, so the palindrome law of the specification holds;
    [computeProperties] reverses the two code units of the surrogate pair
    ([split('')]) and answers [false]. *)
Theorem palindrome_reverses_code_units :
  toLowerCase grinning_face = grinning_face ->
  spec_is_palindrome grinning_face
  /\ prop_is_palindrome (computeProperties grinning_face) = false.
Proof.
  intros H. unfold spec_is_palindrome. simpl. rewrite H. split; reflexivity.
Qed.

(** *** The interpreter *)

(** **** The capturing groups

    A match of one of the three numeric patterns captures a non-empty run
    of decimal digits, on which [parseInt] is never [NaN]; a match of the
    [contain] pattern captures one lower-case letter. The branches of the
    rules for a [NaN] or a missing group are therefore never taken. *)

Lemma match_plus_inv (p : N -> bool) (s : jsstring) (cap : capture) (k : cont)
  (res : capture) :
  match_plus p s cap k = Some res ->
  exists pre rest, s = pre ++ rest /\ pre <> [] /\ forallb p pre = true
                   /\ k rest cap = Some res.
Proof.
  revert res. induction s as [|c s IH]; intros res; simpl; [discriminate|].
  destruct (p c) eqn:Hc; [|discriminate].
  destruct (match_plus p s cap k) as [r|] eqn:E.
  - intros [= <-]. destruct (IH r eq_refl) as (pre & rest & -> & _ & Hp & Hk).
    exists (c :: pre), rest. repeat split; try done. simpl. by rewrite Hc, Hp.
  - intros Hk. exists [c], s. repeat split; try done. simpl. by rewrite Hc.
Qed.

Lemma match_groupless (r : regex) (s : jsstring) (cap : capture) (k : cont)
  (res : capture) :
  groupless r = true -> match_re r s cap k = Some res ->
  exists rest, k rest cap = Some res.
Proof.
  revert s cap k res. induction r as [|c|p|p|r1 IH1 r2 IH2|r1 IH1 r2 IH2|r1 IH1|r1 IH1];
    intros s cap k res Hg; simpl in *.
  - intros H. by exists s.
  - destruct s as [|d rest]; [discriminate|]. destruct (c =? d); [|discriminate].
    intros H. by exists rest.
  - destruct s as [|d rest]; [discriminate|]. destruct (p d); [|discriminate].
    intros H. by exists rest.
  - intros H. apply match_plus_inv in H as (pre & rest & _ & _ & _ & Hk).
    by exists rest.
  - apply andb_true_iff in Hg as [Hg1 Hg2]. intros H.
    apply (IH1 _ _ _ _ Hg1) in H as [rest H].
    by apply (IH2 _ _ _ _ Hg2) in H.
  - apply andb_true_iff in Hg as [Hg1 Hg2].
    destruct (match_re r1 s cap k) as [x|] eqn:E.
    + intros [= <-]. by apply (IH1 _ _ _ _ Hg1) in E.
    + intros H. by apply (IH2 _ _ _ _ Hg2) in H.
  - destruct (match_re r1 s cap k) as [x|] eqn:E.
    + intros [= <-]. by apply (IH1 _ _ _ _ Hg) in E.
    + intros H. by exists s.
  - discriminate.
Qed.

Lemma match_group_plus (p : N -> bool) (s : jsstring) (cap : capture) (k : cont)
  (res : capture) :
  match_re (RGroup (RPlus p)) s cap k = Some res ->
  exists pre rest, pre <> [] /\ forallb p pre = true
                   /\ k rest (Some pre) = Some res.
Proof.
  simpl. intros H. apply match_plus_inv in H as (pre & rest & -> & Hne & Hp & Hk).
  exists pre, rest. repeat split; try done.
  rewrite length_app in Hk.
  replace (length pre + length rest - length rest)%nat with (length pre) in Hk by lia.
  by rewrite take_app_length in Hk.
Qed.

Lemma exec_inv (r : regex) (s : jsstring) (cap : capture) :
  exec r s = Some cap -> exists s', match_here r s' = Some cap.
Proof.
  induction s as [|c s IH]; simpl.
  - destruct (match_here r []) eqn:E; [|discriminate]. intros [= <-]. by exists [].
  - destruct (match_here r (c :: s)) eqn:E.
    + intros [= <-]. by exists (c :: s).
    + exact IH.
Qed.

Lemma read_digits_acc (radix : N) (s : jsstring) (a : N) :
  exists n, read_digits radix s (Some a) = Some n.
Proof.
  revert a. induction s as [|c s IH]; intros a; simpl; [by exists a|].
  destruct (digit_value radix c); [apply IH | by exists a].
Qed.

Lemma is_digit_bounds (c : N) : is_digit c = true -> 48 <= c <= 57.
Proof.
  unfold is_digit. intros H. apply andb_true_iff in H as [H1 H2].
  apply N.leb_le in H1, H2. lia.
Qed.

Lemma digit_not_space (c : N) : is_digit c = true -> is_space c = false.
Proof.
  intros H. apply is_digit_bounds in H. unfold is_space.
  repeat match goal with
    | |- context [?a <=? ?b] => destruct (N.leb_spec a b)
    | |- context [?a =? ?b] => destruct (N.eqb_spec a b)
    end; simpl; try reflexivity; lia.
Qed.

Lemma num_eqb_eq (a b : number) : num_eqb a b = true <-> a = b.
Proof.
  destruct a as [x| |], b as [y| |]; simpl; try (split; (done || discriminate)).
  rewrite Z.eqb_eq. split; [by intros -> | by intros [= ->]].
Qed.

Lemma num_leb_trans (a b c : number) :
  num_leb a b = true -> num_leb b c = true -> num_leb a c = true.
Proof.
  destruct a as [x| |], b as [y| |], c as [z| |]; simpl; try done.
  rewrite !Z.leb_le. lia.
Qed.

Lemma round53_pos (n : N) : n <> 0 -> round53 n <> 0.
Proof.
  intros Hn. unfold round53.
  destruct (N.leb_spec (N.size n) 53) as [H|H]; [exact Hn|].
  cbv zeta. intros E. apply N.shiftl_eq_0_iff in E.
  assert (N.shiftr n (N.size n - 53) <> 0) as Hq.
  { intros Hq. apply N.shiftr_eq_0_iff in Hq as [Hq|[_ Hq]]; [done|].
    rewrite (N.size_log2 n Hn) in H, Hq. lia. }
  destruct (_ || _) in E; lia.
Qed.

Lemma double_of_N_nonneg (n : N) : num_leb (Finite 0) (double_of_N n) = true.
Proof.
  unfold double_of_N. destruct (_ <=? _); [|reflexivity].
  apply Z.leb_le. lia.
Qed.

Lemma double_of_N_pos (n : N) :
  n <> 0 -> num_leb (Finite 1) (double_of_N n) = true.
Proof.
  intros Hn. pose proof (round53_pos n Hn) as Hr.
  unfold double_of_N. destruct (_ <=? _); [|reflexivity].
  apply Z.leb_le. lia.
Qed.

(** Rounding keeps the bounds 1 and -1, and so do the [+ 1] and [- 1] of
    the interpreter on a number that is not negative. *)
Lemma double_of_Z_pos (z : Z) :
  (1 <= z)%Z -> num_leb (Finite 1) (double_of_Z z) = true.
Proof.
  destruct z as [|p|p]; try lia. intros _. by apply double_of_N_pos.
Qed.

Lemma double_of_Z_lower (z : Z) :
  (-1 <= z)%Z -> num_leb (Finite (-1)) (double_of_Z z) = true.
Proof.
  destruct z as [|p|p]; intros H; [reflexivity| |].
  - simpl. pose proof (double_of_N_nonneg (Npos p)) as Hn.
    destruct (double_of_N (N.pos p)) as [x| |]; try done.
    simpl in *. apply Z.leb_le in Hn. apply Z.leb_le. lia.
  - assert (p = 1%positive) as -> by lia. reflexivity.
Qed.

Lemma num_add_one (n : number) :
  num_leb (Finite 0) n = true -> num_leb (Finite 1) (num_add n 1) = true.
Proof.
  destruct n as [z| |]; simpl; [|done..].
  intros H. apply Z.leb_le in H. apply double_of_Z_pos. lia.
Qed.

Lemma num_sub_one (n : number) :
  num_leb (Finite 0) n = true -> num_leb (Finite (-1)) (num_add n (-1)) = true.
Proof.
  destruct n as [z| |]; simpl; [|done..].
  intros H. apply Z.leb_le in H. apply double_of_Z_lower. lia.
Qed.

Lemma parseInt_digits (s : jsstring) :
  s <> [] -> forallb is_digit s = true ->
  exists n, parseInt s = Some n /\ num_leb (Finite 0) n = true.
Proof.
  destruct s as [|c s]; [done|]. intros _ H. simpl in H.
  apply andb_true_iff in H as [Hc Hs].
  pose proof (is_digit_bounds c Hc) as Hb.
  unfold parseInt. cbn [trim_start]. rewrite (digit_not_space c Hc).
  destruct (N.eqb_spec c 45) as [E|_]; [lia|].
  destruct (N.eqb_spec c 43) as [E|_]; [lia|].
  assert (exists n, read_digits 10 (c :: s) None = Some n) as [n Hn].
  { cbn [read_digits]. unfold digit_value.
    destruct (N.leb_spec 48 c) as [_|E]; [|lia].
    destruct (N.leb_spec c 57) as [_|E]; [|lia].
    simpl andb. cbv iota. destruct (N.ltb_spec (c - 48) 10) as [_|E]; [|lia].
    apply read_digits_acc. }
  destruct s as [|d s].
  - rewrite Hn. exists (double_of_N n). split; [done|].
    apply double_of_N_nonneg.
  - simpl in Hs. apply andb_true_iff in Hs as [Hd Hs].
    apply is_digit_bounds in Hd.
    destruct (N.eqb_spec d 120) as [E|_]; [lia|].
    destruct (N.eqb_spec d 88) as [E|_]; [lia|].
    rewrite andb_false_r. rewrite Hn. exists (double_of_N n). split; [done|].
    apply double_of_N_nonneg.
Qed.

(** A text that is an integer is read by [parseInt]: what the list
    handler rejects as [NaN] is not an integer. The converse fails, see
    [parseInt_examples]. *)
Lemma parseInt_signed_digits (c : N) (s : jsstring) :
  (c =? 45) || (c =? 43) = true -> s <> [] -> forallb is_digit s = true ->
  exists n, parseInt (c :: s) = Some n.
Proof.
  intros Hc Hne Hs.
  assert (is_space c = false) as Hsp.
  { apply orb_true_iff in Hc as [Hc|Hc]; apply N.eqb_eq in Hc; by subst c. }
  destruct s as [|d s]; [done|]. clear Hne.
  simpl in Hs. apply andb_true_iff in Hs as [Hd Hs].
  pose proof (is_digit_bounds d Hd) as Hb.
  assert (exists m, read_digits 10 (d :: s) None = Some m) as [m Hm].
  { cbn [read_digits]. unfold digit_value.
    destruct (N.leb_spec 48 d) as [_|E]; [|lia].
    destruct (N.leb_spec d 57) as [_|E]; [|lia].
    simpl andb. cbv iota. destruct (N.ltb_spec (d - 48) 10) as [_|E]; [|lia].
    apply read_digits_acc. }
  unfold parseInt. cbn [trim_start]. rewrite Hsp.
  destruct (c =? 45); [|destruct (c =? 43); [|discriminate Hc]].
  all: destruct s as [|e s]; [rewrite Hm; by eexists|].
  all: simpl in Hs; apply andb_true_iff in Hs as [He Hs];
    apply is_digit_bounds in He;
    destruct (N.eqb_spec e 120) as [E|_]; [lia|];
    destruct (N.eqb_spec e 88) as [E|_]; [lia|];
    rewrite andb_false_r, Hm; by eexists.
Qed.

Lemma integer_text_parses (s : jsstring) :
  integer_text s = true -> exists n, parseInt s = Some n.
Proof.
  destruct s as [|c s]; [discriminate|]. unfold integer_text.
  destruct ((c =? 45) || (c =? 43)) eqn:Hc.
  - unfold digits_only. intros H. apply parseInt_signed_digits; [done| |].
    + intros ->. discriminate H.
    + by destruct s.
  - unfold digits_only. intros H.
    destruct (parseInt_digits (c :: s)) as (n & Hn & _); [done | done |].
    by exists n.
Qed.

Lemma not_an_integer_text (s : jsstring) :
  not_an_integer (Some (VStr s)) -> integer_text s = false.
Proof.
  intros (v & [= <-] & Hv). simpl in Hv.
  destruct (integer_text s) eqn:E; [|reflexivity].
  apply integer_text_parses in E as [n Hn]. congruence.
Qed.

Lemma match_seq_groupless (r1 r2 : regex) (s : jsstring) (cap : capture)
  (k : cont) (res : capture) :
  groupless r1 = true -> match_re (RSeq r1 r2) s cap k = Some res ->
  exists rest, match_re r2 rest cap k = Some res.
Proof. intros Hg H. cbn [match_re] in H. by apply match_groupless in H. Qed.

Lemma word_count_capture (s : jsstring) (cap : capture) :
  exec re_word_count s = Some cap ->
  exists n, parseInt_group cap = Some n /\ num_leb (Finite 0) n = true.
Proof.
  intros H. apply exec_inv in H as [s' H]. unfold match_here, re_word_count in H.
  change (match_re (RSeq ?a ?b) ?s ?c ?k)
    with (match_re a s c (fun rest cap' => match_re b rest cap' k)) in H.
  apply match_group_plus in H as (pre & rest & Hne & Hp & H).
  apply match_groupless in H as [rest' [= <-]]; [|reflexivity].
  by apply parseInt_digits.
Qed.

Lemma length_capture (s : jsstring) (cap : capture) :
  exec re_longer s = Some cap \/ exec re_shorter s = Some cap ->
  exists n, parseInt_group cap = Some n /\ num_leb (Finite 0) n = true.
Proof.
  intros [H|H]; apply exec_inv in H as [s' H];
    unfold match_here, re_longer, re_shorter in H;
    apply match_seq_groupless in H as [rest H]; try reflexivity;
    apply match_group_plus in H as (pre & rest' & Hne & Hp & [= <-]);
    by apply parseInt_digits.
Qed.

Lemma contains_capture (s : jsstring) (cap : capture) :
  exec re_contains s = Some cap ->
  exists c, cap = Some [c] /\ is_lower_az c = true.
Proof.
  intros H. apply exec_inv in H as [s' H]. unfold match_here, re_contains in H.
  do 5 (apply match_seq_groupless in H as [? H]; [|reflexivity]).
  cbn [match_re] in H.
  match type of H with match ?x with _ => _ end = _ => destruct x as [|d rest] end;
    [discriminate|].
  destruct (is_lower_az d) eqn:E; [|discriminate].
  injection H as <-. exists d. split; [|done].
  cbn [length]. replace (S (length rest) - length rest)%nat with 1%nat by lia.
  reflexivity.
Qed.

Lemma parseNaturalLanguage_latin (query : jsstring) :
  lowers_basic_latin -> forallb is_ascii query = true ->
  parseNaturalLanguage query
  = rule_first_vowel (toLowerCase_latin query)
      (rule_contains (toLowerCase_latin query)
         (rule_shorter (toLowerCase_latin query)
            (rule_longer (toLowerCase_latin query)
               (rule_palindrome (toLowerCase_latin query)
                  (rule_word_count (toLowerCase_latin query) no_filters))))).
Proof. intros H Ha. unfold parseNaturalLanguage. by rewrite (H query Ha). Qed.

(** C6. The three examples of the specification: the two queries give
    exactly the filters [{word_count: 1, is_palindrome: true}] and
    [{min_length: 11}]; on [xyz] no rule fires, the filter is empty and the
    handler answers that the query cannot be parsed, without a store call. *)
Theorem interpret_examples :
  lowers_basic_latin ->
  parseNaturalLanguage (lit "all single word palindromic strings")
  = {| flt_is_palindrome := Some true; flt_min_length := None;
       flt_max_length := None; flt_word_count := Some (Finite 1);
       flt_contains_character := None |}
  /\ parseNaturalLanguage (lit "strings longer than 10 characters")
     = {| flt_is_palindrome := None; flt_min_length := Some (Finite 11);
          flt_max_length := None; flt_word_count := None;
          flt_contains_character := None |}
  /\ parseNaturalLanguage (lit "xyz") = no_filters
  /\ forall (p : query_params) (st : store),
       qp_query p = Some (VStr (lit "xyz")) ->
       run (filter_by_natural_language p) st = (UnparsableQuery, st, []).
Proof.
  intros H.
  assert (parseNaturalLanguage (lit "xyz") = no_filters) as Hxyz.
  { rewrite parseNaturalLanguage_latin by (done || reflexivity).
    vm_compute. reflexivity. }
  repeat split.
  - rewrite parseNaturalLanguage_latin by (done || reflexivity).
    vm_compute. reflexivity.
  - rewrite parseNaturalLanguage_latin by (done || reflexivity).
    vm_compute. reflexivity.
  - exact Hxyz.
  - intros p st Hq. unfold filter_by_natural_language. rewrite Hq.
    change (falsy (Some (VStr (lit "xyz")))) with false. cbv iota.
    rewrite Hxyz. reflexivity.
Qed.

(** C7. Whenever the lowercased query contains [first vowel], the filter
    that [parseNaturalLanguage] returns has [contains_character] equal to
    the constant [a], and the rule of that phrase replaces whatever
    [contains_character] the rule before it had set. *)
Theorem first_vowel_overwrites (query : jsstring) :
  includes (toLowerCase query) (lit "first vowel") = true ->
  flt_contains_character (parseNaturalLanguage query) = Some (lit "a")
  /\ forall (f : filters) (c : jsstring),
       flt_contains_character
         (rule_first_vowel (toLowerCase query) (set_contains_character c f))
       = Some (lit "a").
Proof.
  intros H. unfold parseNaturalLanguage, rule_first_vowel. rewrite H.
  split; [reflexivity | intros; reflexivity].
Qed.

(** *** The store and [POST /strings] *)

Lemma store_ok_nil : store_ok [].
Proof. split; constructor. Qed.

Lemma store_ok_cons (d : doc) (st : store) :
  store_ok (d :: st) ->
  doc_id d = sha256_hex (doc_value d)
  /\ (forall e, e ∈ st -> doc_id e <> doc_id d)
  /\ store_ok st.
Proof.
  intros [Hn Hf]. simpl in Hn. apply NoDup_cons in Hn as [Hd Hn].
  apply Forall_cons in Hf as [Hi Hf]. repeat split; try done.
  intros e He Heq. apply Hd. rewrite <- Heq.
  apply list_elem_of_fmap. by exists e.
Qed.

Lemma store_ok_id (st : store) (d : doc) :
  store_ok st -> d ∈ st -> doc_id d = sha256_hex (doc_value d).
Proof. intros [_ Hf] Hd. by apply (proj1 (Forall_forall _ _) Hf). Qed.


Lemma count_value_none (v : jsstring) (st : store) :
  (forall e, e ∈ st -> doc_value e <> v) -> count_value v st = 0%nat.
Proof.
  unfold count_value. induction st as [|d st IH]; intros H; [reflexivity|].
  simpl. destruct (str_eqb (doc_value d) v) eqn:E.
  - apply str_eqb_eq in E. exfalso. apply (H d); [left | done].
  - apply IH. intros e He. apply H. by right.
Qed.

(** In a store that satisfies the invariant a value has at most one
    document. *)
Lemma count_value_one (v : jsstring) (st : store) :
  store_ok st -> has_value v st -> count_value v st = 1%nat.
Proof.
  induction st as [|d st IH]; intros Hok [x [Hx Hv]].
  - by apply elem_of_nil in Hx.
  - destruct (store_ok_cons _ _ Hok) as (Hid & Hfresh & Hok').
    unfold count_value in *. simpl.
    destruct (str_eqb (doc_value d) v) eqn:E.
    + apply str_eqb_eq in E. simpl. f_equal.
      apply count_value_none. intros e He Hev.
      apply (Hfresh e He).
      rewrite (store_ok_id st e Hok' He), Hid. congruence.
    + apply str_eqb_neq in E. apply IH; [done|].
      exists x. split; [|done].
      apply elem_of_cons in Hx as [->|Hx]; [congruence | done].
Qed.

Lemma post_strings_conflict (st : store) (v : jsstring) (now : Z) (e : doc) :
  List.find (fun x => str_eqb (doc_id x) (sha256_hex v)) st = Some e ->
  run (post_strings (Some (VStr v)) now) st
  = (Conflict, st, [CallFindById (sha256_hex v)]).
Proof.
  intros H. unfold run, post_strings, bind, post_check, findById, bind. simpl.
  rewrite H. reflexivity.
Qed.

Lemma duplicate_key_fresh (st : store) (d : doc) :
  store_ok st -> doc_id d = sha256_hex (doc_value d) ->
  List.find (fun x => str_eqb (doc_id x) (doc_id d)) st = None ->
  duplicate_key d st = false.
Proof.
  intros Hok Hid Hf. unfold duplicate_key.
  destruct (existsb _ st) eqn:E; [|reflexivity].
  apply existsb_exists in E as (e & He & Hdup).
  pose proof (find_none _ _ Hf e He) as Hne. simpl in Hne.
  apply str_eqb_neq in Hne.
  apply orb_true_iff in Hdup as [Hdup|Hdup]; apply str_eqb_eq in Hdup.
  - done.
  - exfalso. apply Hne. apply list_elem_of_In in He.
    rewrite (store_ok_id st e Hok He), Hid. congruence.
Qed.

(** A created value that is not empty, on a store that has no document
    under its digest: the document is appended and the answer is 201. *)
Lemma post_strings_created (st : store) (v : jsstring) (now : Z) :
  store_ok st -> v <> [] ->
  List.find (fun x => str_eqb (doc_id x) (sha256_hex v)) st = None ->
  let d := {| doc_id := sha256_hex v; doc_value := v;
              doc_properties := computeProperties v;
              doc_created_at := now |} in
  run (post_strings (Some (VStr v)) now) st
  = (Response 201 (BDoc d), st ++ [d], [CallFindById (sha256_hex v); CallSave d]).
Proof.
  intros Hok Hv H d.
  pose proof (duplicate_key_fresh st d Hok eq_refl H) as Hfresh.
  unfold run, post_strings, bind, post_check, findById, post_insert, bind, save.
  change (prop_sha256_hash (computeProperties v)) with (sha256_hex v).
  rewrite H. cbn -[duplicate_key computeProperties validates].
  change (prop_sha256_hash (computeProperties v)) with (sha256_hex v).
  fold d. assert (validates d = true) as -> by (destruct v; [done | reflexivity]).
  cbn -[duplicate_key computeProperties]. rewrite Hfresh. reflexivity.
Qed.

(** The empty value on a store that has no document under its digest:
    the validators refuse the document, [save] throws, the answer is 500
    and nothing is stored. *)
Lemma post_strings_refused (st : store) (now : Z) :
  List.find (fun x => str_eqb (doc_id x) (sha256_hex [])) st = None ->
  run (post_strings (Some (VStr [])) now) st
  = (InternalError, st,
     [CallFindById (sha256_hex []);
      CallSave {| doc_id := sha256_hex []; doc_value := [];
                  doc_properties := computeProperties [];
                  doc_created_at := now |}]).
Proof.
  intros H.
  unfold run, post_strings, bind, post_check, findById, post_insert, bind, save.
  change (prop_sha256_hash (computeProperties [])) with (sha256_hex []).
  rewrite H. reflexivity.
Qed.

Lemma has_digest_find (v : jsstring) (st : store) :
  has_digest v st = false ->
  List.find (fun x => str_eqb (doc_id x) (sha256_hex v)) st = None.
Proof.
  unfold has_digest. induction st as [|x st IH]; simpl; [done|].
  destruct (str_eqb (doc_id x) (sha256_hex v)); simpl; [discriminate | exact IH].
Qed.



(** *** Routing *)

(** No request is routed to the natural-language handler: whatever its
    route matches, the route of [GET /strings/:string_value], registered
    before it, matches too. *)
Lemma natural_language_unreachable (m : method) (path : list jsstring)
  (param : option jsstring) :
  first_route routes m path <> Some (FilterByNaturalLanguage, param).
Proof.
  unfold routes.
  destruct m; cbn [first_route method_eqb match_path]; route_cases.
Qed.

Lemma find_by_value (st : store) (v : jsstring) :
  match List.find (fun x => str_eqb (doc_value x) v) st with
  | Some d => d ∈ st /\ doc_value d = v
  | None => ~ has_value v st
  end.
Proof.
  destruct (List.find _ st) as [d|] eqn:E.
  - apply find_some in E as [Hd Hv]. apply str_eqb_eq in Hv.
    split; [by apply list_elem_of_In | done].
  - intros (d & Hd & Hv). apply list_elem_of_In in Hd.
    pose proof (find_none _ _ E d Hd) as Hx. simpl in Hx.
    rewrite Hv, str_eqb_refl in Hx. discriminate.
Qed.

Lemma get_string_run (st : store) (v : jsstring) :
  decodeURIComponent v = Some v ->
  run (get_string v) st
  = (match List.find (fun x => str_eqb (doc_value x) v) st with
     | Some d => Response 200 (BDoc d)
     | None => NotFound
     end, st, [CallFindOne v]).
Proof.
  intros H. unfold run, get_string, bind, findOne. rewrite H.
  destruct (List.find _ st); reflexivity.
Qed.

(** C4. A [GET] of [/strings/filter-by-natural-language], whatever its
    query, is routed to the handler of [GET /strings/:string_value] with
    the value [filter-by-natural-language]: the answer is NotFound unless
    a document has that very value, in which case it is that document; and
    no request at all is routed to the natural-language handler, so the
    interpreter never runs. *)
Theorem natural_language_route_shadowed (q : query_params)
  (body : option jsvalue) (now : Z) (st : store) :
  decodes_unescaped ->
  let req := {| req_method := GET; req_path := natural_language_path;
                req_query := q; req_body_value := body |} in
  let value := lit "filter-by-natural-language" in
  first_route routes GET natural_language_path = Some (GetString, Some value)
  /\ run (app req now) st = run (get_string value) st
  /\ (~ has_value value st ->
      run (app req now) st = (NotFound, st, [CallFindOne value]))
  /\ (has_value value st ->
      exists d, d ∈ st /\ doc_value d = value
                /\ run (app req now) st
                   = (Response 200 (BDoc d), st, [CallFindOne value]))
  /\ (forall m path param,
        first_route routes m path <> Some (FilterByNaturalLanguage, param)).
Proof.
  intros Hdec req value.
  assert (decodeURIComponent value = Some value) as Hv
    by (apply Hdec; vm_compute; reflexivity).
  assert (first_route routes GET natural_language_path
          = Some (GetString, Some value)) as Hroute
    by (vm_compute; reflexivity).
  assert (run (app req now) st = run (get_string value) st) as Happ.
  { unfold app. cbn [req_method req_path req]. rewrite Hroute.
    unfold with_param. rewrite Hv. reflexivity. }
  split; [exact Hroute|]. split; [exact Happ|].
  rewrite Happ, (get_string_run st value Hv).
  pose proof (find_by_value st value) as Hf.
  split; [|split; [|apply natural_language_unreachable]].
  - intros Hn. destruct (List.find _ st) as [d|]; [|reflexivity].
    destruct Hf as [Hd Hdv]. exfalso. apply Hn. by exists d.
  - intros Hx. destruct (List.find _ st) as [d|]; [|by destruct Hf].
    exists d. destruct Hf. done.
Qed.

(** *** [GET /strings] *)

Lemma strict_equals_true (v : jsvalue) (s : jsstring) :
  strict_equals v s = true <-> v = VStr s.
Proof.
  destruct v as [|x|x t]; simpl; split; try discriminate.
  - intros H. apply str_eqb_eq in H. congruence.
  - intros [= ->]. apply str_eqb_refl.
Qed.

(** A parameter that the handler does not reject. *)
Lemma given_is_integer (v : jsvalue) :
  ~ not_an_integer (Some v) -> exists n, parseInt (ToString v) = Some n.
Proof.
  intros H. destruct (parseInt (ToString v)) as [n|] eqn:E; [by exists n|].
  exfalso. apply H. by exists v.
Qed.

Lemma given_is_one_character (v : jsvalue) :
  ~ not_one_character (Some v) ->
  exists c, v = VStr c /\ (List.length c =? 1)%nat = true.
Proof.
  intros H. destruct v as [|c|x t].
  - exfalso. apply H. exists VNull. split; [done|]. intros c Hc. discriminate Hc.
  - exists c. split; [done|].
    destruct (List.length c =? 1)%nat eqn:E; [done|].
    exfalso. apply H. exists (VStr c). split; [done|]. intros c' [= <-].
    left. by apply Nat.eqb_neq.
  - exfalso. apply H. exists (VOther x t). split; [done|].
    intros c Hc. discriminate Hc.
Qed.


(** A request that no block rejects reaches the store with one [find]. *)
Lemma get_strings_outcome (p : query_params) (st : store) :
  (exists r, run (get_strings p) st = (r, st, []) /\ InvalidFilterValue r)
  \/ (exists q f,
        run (get_strings p) st
        = (Response 200
             (BList (merge_sort newer_first (List.filter (matches q) st))
                (List.length (merge_sort newer_first (List.filter (matches q) st)))
                f),
           st, [CallFind q])
        /\ q_is_palindrome q = flt_is_palindrome f).
Proof.
  destruct p as [pal mn mx wc cc qq].
  unfold InvalidFilterValue, run, get_strings, bind, with_is_palindrome,
    with_min_length, with_max_length, with_word_count,
    with_contains_character, find, ret, reply;
    cbn [qp_is_palindrome qp_min_length qp_max_length qp_word_count
         qp_contains_character].
  list_cases; cbn -[InvalidValueFor NotSingleCharacter merge_sort].
  all: try (left; eexists; split; [reflexivity | tauto]).
  all: right; eexists; eexists; split; reflexivity.
Qed.

(** C10. A given [is_palindrome] parameter is never a reason to reject the
    request. Whatever the handler answers that is not 200, it answers the
    same to the request without the parameter, and it answers 200 exactly
    when it answers 200 to the request without the parameter. When no
    other parameter is rejected (none of [min_length], [max_length],
    [word_count] is [NaN] for [parseInt], and [contains_character] is one
    character) the request is answered 200, with one [find]. A 200 answer
    carries [is_palindrome] in the filter applied and in the query sent to
    the store: [true] when the parameter is exactly the string [true],
    [false] for any other value. *)
Theorem is_palindrome_never_rejected (p : query_params) (v : jsvalue)
  (st : store) :
  qp_is_palindrome p = Some v ->
  (forall r st' tr,
     run (get_strings p) st = (r, st', tr) -> status r <> 200%nat ->
     run (get_strings (without_is_palindrome p)) st = (r, st', tr))
  /\ (forall data n f st' tr,
       run (get_strings p) st = (Response 200 (BList data n f), st', tr) ->
       exists q, tr = [CallFind q]
         /\ q_is_palindrome q = flt_is_palindrome f
         /\ (v = VStr (lit "true") -> flt_is_palindrome f = Some true)
         /\ (v <> VStr (lit "true") -> flt_is_palindrome f = Some false))
  /\ (status (run (get_strings p) st).1.1 = 200%nat
      <-> status (run (get_strings (without_is_palindrome p)) st).1.1 = 200%nat)
  /\ (~ not_an_integer (qp_min_length p) ->
      ~ not_an_integer (qp_max_length p) ->
      ~ not_an_integer (qp_word_count p) ->
      ~ not_one_character (qp_contains_character p) ->
      exists data f,
        run (get_strings p) st
        = (Response 200 (BList data (List.length data) f), st,
           [CallFind (filters_query f)])
        /\ flt_is_palindrome f = Some (strict_equals v (lit "true")))
  /\ (strict_equals v (lit "true") = true <-> v = VStr (lit "true")).
Proof.
  destruct p as [pal mn mx wc cc qq]. cbn [qp_is_palindrome]. intros ->.
  unfold without_is_palindrome, run, get_strings, bind, with_is_palindrome,
    with_min_length, with_max_length, with_word_count,
    with_contains_character, find, ret, reply;
    cbn [qp_is_palindrome qp_min_length qp_max_length qp_word_count
         qp_contains_character].
  split; [|split; [|split; [|split]]].
  - intros r st' tr.
    list_cases; cbn -[InvalidValueFor NotSingleCharacter merge_sort strict_equals lit].
    all: intros [= <- <- <-]; try reflexivity.
    all: cbn; intros Hs; contradiction.
  - intros data n f st' tr.
    list_cases; cbn -[InvalidValueFor NotSingleCharacter merge_sort strict_equals lit].
    all: intros [= <- <- <- <- <-] || (intros H; discriminate H).
    all: eexists; split; [reflexivity|]; split; [reflexivity|].
    all: cbn -[strict_equals lit]; split; intros Hv;
      destruct (strict_equals v (lit "true")) eqn:E; try reflexivity.
    all: try (apply strict_equals_true in E; exfalso; exact (Hv E)).
    all: rewrite (proj2 (strict_equals_true v (lit "true")) Hv) in E;
      discriminate.
  - list_cases; cbn -[merge_sort strict_equals lit]; split; intros H;
      (reflexivity || discriminate H).
  - intros Hmn Hmx Hwc Hcc.
    repeat match goal with
      | H : ~ not_an_integer ?o |- _ =>
          destruct o as [?x|];
            [apply given_is_integer in H as [? ->] | clear H]
      | H : ~ not_one_character ?o |- _ =>
          destruct o as [?x|];
            [apply given_is_one_character in H as (? & -> & ->) | clear H]
      end.
    all: cbn -[merge_sort strict_equals lit].
    all: eexists; eexists (Filters _ _ _ _ _); split; reflexivity.
  - apply strict_equals_true.
Qed.

(** *** The invariant of the store *)

Lemma store_ok_snoc (st : store) (d : doc) :
  store_ok st -> doc_id d = sha256_hex (doc_value d) ->
  List.find (fun x => str_eqb (doc_id x) (doc_id d)) st = None ->
  store_ok (st ++ [d]).
Proof.
  intros [Hn Hf] Hid Hfind. split.
  - rewrite map_app. simpl. apply NoDup_app. split; [done|]. split.
    + intros x Hx Hx'. apply list_elem_of_singleton in Hx'. subst x.
      apply list_elem_of_fmap in Hx as (e & He & Hin).
      apply list_elem_of_In in Hin.
      pose proof (find_none _ _ Hfind e Hin) as Hne. simpl in Hne.
      apply str_eqb_neq in Hne. congruence.
    + apply NoDup_singleton.
  - apply Forall_app. split; [done|]. by apply Forall_singleton.
Qed.

Lemma remove_value_subset (v : jsstring) (st : store) (d : doc) :
  d ∈ remove_value v st -> d ∈ st.
Proof.
  induction st as [|x st IH]; simpl; [done|].
  destruct (str_eqb (doc_value x) v).
  - intros H. by right.
  - intros H. apply elem_of_cons in H as [->|H]; [left | right; auto].
Qed.

Lemma store_ok_remove (v : jsstring) (st : store) :
  store_ok st -> store_ok (remove_value v st).
Proof.
  induction st as [|x st IH]; simpl; [done|]. intros Hok.
  destruct (store_ok_cons _ _ Hok) as (Hid & Hfresh & Hok').
  destruct (str_eqb (doc_value x) v); [done|].
  destruct (IH Hok') as [Hn Hf]. split.
  - simpl. apply NoDup_cons. split; [|done].
    intros Hx. apply list_elem_of_fmap in Hx as (e & He & Hin).
    apply (Hfresh e); [by apply (remove_value_subset v) | done].
  - by apply Forall_cons.
Qed.

Lemma post_strings_store_ok (value : option jsvalue) (now : Z) (st : store) :
  store_ok st -> store_ok (run (post_strings value now) st).1.2.
Proof.
  intros Hok. destruct value as [[|v|x t]|]; try exact Hok.
  destruct (List.find (fun x => str_eqb (doc_id x) (sha256_hex v)) st)
    as [e|] eqn:E.
  - by rewrite (post_strings_conflict st v now e E).
  - destruct v as [|c v].
    + by rewrite (post_strings_refused st now E).
    + rewrite (post_strings_created st (c :: v) now Hok ltac:(discriminate) E).
      simpl. by apply store_ok_snoc.
Qed.

Lemma with_param_store_ok (param : option jsstring)
  (h : jsstring -> handler response) (st : store) :
  (forall v, store_ok (run (h v) st).1.2) ->
  store_ok st -> store_ok (run (with_param param h) st).1.2.
Proof.
  intros Hh Hok. unfold with_param.
  destruct param as [raw|]; [|exact Hok].
  destruct (decodeURIComponent raw); [apply Hh | exact Hok].
Qed.

(** Every handler keeps the invariant, so every store that the service
    reaches from the empty collection satisfies it. *)
Lemma app_store_ok (req : request) (now : Z) (st : store) :
  store_ok st -> store_ok (run (app req now) st).1.2.
Proof.
  intros Hok. unfold app.
  destruct (first_route routes (req_method req) (req_path req))
    as [[e param]|]; [|exact Hok].
  destruct e.
  - by apply post_strings_store_ok.
  - apply with_param_store_ok; [|done]. intros v.
    unfold run, get_string, bind, findOne.
    destruct (decodeURIComponent v); [|exact Hok].
    destruct (List.find _ st); exact Hok.
  - destruct (get_strings_outcome (req_query req) st)
      as [(r & -> & _) | (q & f & -> & _)]; exact Hok.
  - unfold run, filter_by_natural_language, bind, find.
    destruct (falsy _); [exact Hok|].
    destruct (qp_query (req_query req)) as [[|s|x t]|]; try exact Hok.
    destruct (filters_keys _ =? 0)%nat; exact Hok.
  - apply with_param_store_ok; [|done]. intros v.
    unfold run, delete_string, bind, findOneAndDelete.
    destruct (decodeURIComponent v); [|exact Hok].
    destruct (List.find _ st); simpl; by apply store_ok_remove.
  - exact Hok.
Qed.

Lemma reachable_store_ok (st : store) : reachable st -> store_ok st.
Proof.
  induction 1 as [|st req now _ IH]; [apply store_ok_nil|].
  by apply app_store_ok.
Qed.

(** *** Two creations in flight *)

(** A task that runs alone does what the handler does. *)
Lemma task_alone (value : option jsvalue) (now : Z) (st : store) :
  interleave now now [false; false] (Arrived value) (Arrived value) st
  = (Answered (run (post_strings value now) st).1.1, Arrived value,
     (run (post_strings value now) st).1.2).
Proof.
  unfold interleave, task_step, run, post_strings, bind.
  destruct (post_check value st) as [[[r|checked] st'] tr]; [reflexivity|].
  destruct (post_insert now checked st') as [[[r|r] st''] tr']; reflexivity.
Qed.

(** C5, on the empty store, for two creations of one value [v] that is
    not empty. When the second request is handled after the first has
    answered, it answers Conflict. When both [findById] run before either
    [save], the first [save] succeeds, the second is refused by the
    database, and the second request answers 500, not Conflict: the check
    and the insert are not one atomic step. *)
Theorem concurrent_creates_race (v : jsstring) (now1 now2 : Z) :
  v <> [] ->
  let d := {| doc_id := sha256_hex v; doc_value := v;
              doc_properties := computeProperties v;
              doc_created_at := now1 |} in
  let arrived := Arrived (Some (VStr v)) in
  interleave now1 now2 [false; false; true; true] arrived arrived []
  = (Answered (Response 201 (BDoc d)), Answered Conflict, [d])
  /\ interleave now1 now2 [false; true; false; true] arrived arrived []
     = (Answered (Response 201 (BDoc d)), Answered InternalError, [d]).
Proof.
  intros Hv. destruct v as [|c v]; [done|]. clear Hv.
  intros d arrived. unfold arrived, interleave, task_step, run, post_check,
    post_insert, bind, findById, save, ret, reply, duplicate_key.
  cbn -[computeProperties str_eqb].
  change (prop_sha256_hash (computeProperties (c :: v)))
    with (sha256_hex (c :: v)).
  rewrite !str_eqb_refl. cbn -[computeProperties str_eqb]. split; reflexivity.
Qed.

Lemma find_has_digest (v : jsstring) (st : store) (e : doc) :
  List.find (fun x => str_eqb (doc_id x) (sha256_hex v)) st = Some e ->
  has_digest v st = true.
Proof.
  intros H. apply find_some in H as [Hin He].
  apply existsb_exists. by exists e.
Qed.

Lemma has_digest_duplicate (v : jsstring) (now : Z) (st : store) :
  has_digest v st = true ->
  duplicate_key {| doc_id := sha256_hex v; doc_value := v;
                   doc_properties := computeProperties v;
                   doc_created_at := now |} st = true.
Proof.
  unfold has_digest, duplicate_key. intros H.
  apply existsb_exists in H as (e & He & Hid).
  apply existsb_exists. exists e. split; [done|].
  cbn [doc_id doc_value]. by rewrite Hid.
Qed.

Lemma has_digest_snoc (v : jsstring) (st : store) (d : doc) :
  doc_id d = sha256_hex v -> has_digest v (st ++ [d]) = true.
Proof.
  intros H. unfold has_digest. rewrite existsb_app. simpl.
  rewrite H, str_eqb_refl. by rewrite orb_true_r.
Qed.

(** One move of a task keeps [in_flight], whatever the other task is. *)
Lemma task_step_in_flight (v : jsstring) (now : Z) (t other : task)
  (st : store) :
  creation_of v t ->
  (is_created t || is_created other = true -> has_digest v st = true) ->
  is_created t && is_created other = false ->
  creation_of v (task_step now t st).1
  /\ (is_created (task_step now t st).1 || is_created other = true ->
      has_digest v (task_step now t st).2 = true)
  /\ is_created (task_step now t st).1 && is_created other = false.
Proof.
  intros Ht Hst Hone. destruct t as [value|checked|r].
  - simpl in Ht. subst value.
    unfold task_step, post_check, bind, findById, ret, reply.
    change (prop_sha256_hash (computeProperties v)) with (sha256_hex v).
    destruct (List.find _ st) as [e|] eqn:E; cbn.
    + split; [done|]. split; [|done]. intros _. by apply (find_has_digest v st e).
    + split; [done|]. split; [|done]. exact Hst.
  - simpl in Ht. subst checked.
    unfold task_step, run, post_insert, bind, save, ret.
    change (prop_sha256_hash (computeProperties v)) with (sha256_hex v).
    destruct (validates _); cbn [negb];
      [|cbn; split; [done|]; split; [exact Hst | done]].
    destruct (has_digest v st) eqn:Hd.
    + rewrite (has_digest_duplicate v now st Hd). cbn.
      split; [done|]. split; [|done]. intros _. exact Hd.
    + destruct (duplicate_key _ st); cbn.
      * split; [done|]. split; [|done]. intros Ho. discriminate (Hst Ho).
      * split; [done|]. split.
        -- intros _. by apply has_digest_snoc.
        -- destruct (is_created other); [|reflexivity].
           simpl in Hst. discriminate (Hst eq_refl).
  - cbn. split; [done|]. split; [exact Hst | exact Hone].
Qed.

Lemma interleave_in_flight (v : jsstring) (now1 now2 : Z)
  (schedule : list bool) (t1 t2 : task) (st : store) :
  in_flight v t1 t2 st ->
  in_flight v (interleave now1 now2 schedule t1 t2 st).1.1
    (interleave now1 now2 schedule t1 t2 st).1.2
    (interleave now1 now2 schedule t1 t2 st).2.
Proof.
  revert t1 t2 st. induction schedule as [|[|] rest IH]; intros t1 t2 st H.
  - exact H.
  - cbn [interleave]. destruct H as (H1 & H2 & Hst & Hone).
    rewrite orb_comm in Hst. rewrite andb_comm in Hone.
    pose proof (task_step_in_flight v now2 t2 t1 st H2 Hst Hone) as Hs.
    destruct (task_step now2 t2 st) as [t2' st']. cbn [fst snd] in Hs.
    destruct Hs as (H2' & Hst' & Hone').
    apply IH. rewrite orb_comm in Hst'. rewrite andb_comm in Hone'. done.
  - cbn [interleave]. destruct H as (H1 & H2 & Hst & Hone).
    pose proof (task_step_in_flight v now1 t1 t2 st H1 Hst Hone) as Hs.
    destruct (task_step now1 t1 st) as [t1' st']. cbn [fst snd] in Hs.
    destruct Hs as (H1' & Hst' & Hone').
    by apply IH.
Qed.

(** Under every schedule, of two creations of one value at most one
    answers 201. *)
Lemma at_most_one_created (v : jsstring) (now1 now2 : Z)
  (schedule : list bool) (st : store) :
  let arrived := Arrived (Some (VStr v)) in
  is_created (interleave now1 now2 schedule arrived arrived st).1.1
  && is_created (interleave now1 now2 schedule arrived arrived st).1.2 = false.
Proof.
  intros arrived.
  apply (interleave_in_flight v now1 now2 schedule arrived arrived st).
  repeat split; simpl; discriminate.
Qed.

End Service.

(** ** Further properties of the service

    The properties of this section are again stated for every
    [toLowerCase], digest and [decodeURIComponent]. *)

Section Further.

Variable toLowerCase : jsstring -> jsstring.
Variable sha256_hex : jsstring -> jsstring.
Variable decodeURIComponent : jsstring -> option jsstring.

(** Case analysis on the parameters that [get_strings] reads. *)
Ltac list_cases :=
  repeat match goal with
    | |- context [match parseInt ?x with Some _ => _ | None => _ end] =>
        destruct (parseInt x) eqn:?
    | |- context [match ?x with Some _ => _ | None => _ end] =>
        is_var x; destruct x
    | |- context [match ?v with VNull => _ | VStr _ => _ | VOther _ _ => _ end] =>
        is_var v; destruct v
    | |- context [(List.length ?c =? 1)%nat] =>
        destruct (List.length c =? 1)%nat eqn:?
    end.

(** Case analysis on the segments of a path and on the comparisons of
    [match_path]. *)
Ltac route_cases :=
  repeat first
    [ discriminate
    | match goal with
      | |- context [match ?x with [] => _ | _ :: _ => _ end] =>
          is_var x; destruct x; cbn [match_path]
      | |- context [str_eqb ?a (toLowerCase_latin [])] =>
          let v := eval vm_compute in (str_eqb a (toLowerCase_latin [])) in
          change (str_eqb a (toLowerCase_latin [])) with v; cbv iota
      | |- context [if str_eqb ?a ?b then _ else _] => destruct (str_eqb a b)
      end ].

(** *** More on the analyzer *)

Lemma chars_length_step (s : jsstring) :
  ((List.length (chars s) <= List.length s
    /\ List.length s <= 2 * List.length (chars s))
   /\ forall c, List.length (chars (c :: s)) <= S (List.length s)
                /\ S (List.length s) <= 2 * List.length (chars (c :: s)))%nat.
Proof.
  induction s as [|d s [[IH1 IH1'] IH2]];
    [split; [simpl; lia | intros c; simpl; lia]|].
  split; [apply IH2|]. intros c.
  change (chars (c :: d :: s)) with
    (if is_high_surrogate c && is_low_surrogate d
     then [c; d] :: chars s else [c] :: chars (d :: s)).
  destruct (is_high_surrogate c && is_low_surrogate d);
    cbn [List.length].
  - lia.
  - destruct (IH2 d) as [Ha Hb]. cbn [List.length] in *. lia.
Qed.

Lemma size_list_to_set_le (l : list jsstring) :
  (size (list_to_set l : gset jsstring) <= List.length l)%nat.
Proof.
  induction l as [|x l IH].
  - change (list_to_set [] : gset jsstring) with (∅ : gset jsstring).
    by rewrite size_empty.
  - rewrite list_to_set_cons, size_union_alt, size_singleton. cbn [List.length].
    pose proof (subseteq_size (list_to_set l ∖ {[x]}) (list_to_set l : gset jsstring)) as H.
    assert (list_to_set l ∖ {[x]} ⊆ (list_to_set l : gset jsstring)) as Hs
      by (apply subseteq_difference_l; reflexivity).
    specialize (H Hs). lia.
Qed.

(** The three counts of [computeProperties] are ordered: distinct code
    points, code points, code units, and a value has at most two code
    units per code point; a value that is not empty has a character. *)
Theorem analyzer_counts_ordered (s : jsstring) :
  let p := computeProperties toLowerCase sha256_hex s in
  (prop_unique_characters p <= sum_counts (prop_character_frequency_map p)
   /\ sum_counts (prop_character_frequency_map p) <= prop_length p
   /\ prop_length p <= 2 * sum_counts (prop_character_frequency_map p)
   /\ (prop_length p = 0 <-> prop_unique_characters p = 0))%nat.
Proof.
  intros p.
  assert (sum_counts (prop_character_frequency_map p) = List.length (chars s)) as ->.
  { unfold p. simpl. rewrite count_chars_sum. unfold sum_counts.
    rewrite map_fold_empty. lia. }
  destruct (chars_length_step s) as [[H1 H2] _].
  pose proof (size_list_to_set_le (chars s)) as H3.
  unfold p. simpl. repeat split; try lia.
  intros H. apply size_empty_iff in H.
  destruct (chars s) as [|c cs] eqn:E; [simpl in H2; lia|].
  exfalso. apply (not_elem_of_empty (C:=gset jsstring) c). apply H.
  rewrite list_to_set_cons.
  apply elem_of_union_l, elem_of_singleton. reflexivity.
Qed.

Lemma occurrences_zero (c : jsstring) (cs : list jsstring) :
  List.length (List.filter (fun x => str_eqb x c) cs) = 0%nat <-> c ∉ cs.
Proof.
  induction cs as [|x cs IH]; simpl.
  - split; [intros _ H; by apply elem_of_nil in H | done].
  - destruct (str_eqb x c) eqn:E.
    + apply str_eqb_eq in E. subst x. simpl. split; [discriminate|].
      intros H. exfalso. apply H. left.
    + apply str_eqb_neq in E. rewrite IH. split.
      * intros H Hc. apply elem_of_cons in Hc as [Hc|Hc]; [congruence | done].
      * intros H Hc. apply H. by right.
Qed.

(** The count that the frequency map holds under a key is the number of
    times that code point occurs in the value, and a code point that does
    not occur has no key. *)
Theorem frequency_map_lookup (s c : jsstring) :
  prop_character_frequency_map (computeProperties toLowerCase sha256_hex s) !! c
  = if (occurrences c s =? 0)%nat then None else Some (occurrences c s).
Proof.
  simpl. pose proof (count_chars_lookup (chars s) ∅ c) as H.
  rewrite lookup_empty in H. simpl in H. unfold occurrences.
  destruct (Nat.eqb_spec (List.length (List.filter (fun x => str_eqb x c) (chars s))) 0) as [E|E].
  - apply occurrences_zero in E.
    apply not_elem_of_dom. rewrite count_chars_dom, dom_empty_L.
    rewrite (left_id_L ∅ (∪)). by rewrite elem_of_list_to_set.
  - destruct (count_chars ∅ (chars s) !! c) as [n|] eqn:En.
    + rewrite or_zero_some in H. by rewrite H.
    + simpl in H. lia.
Qed.

Lemma bmp_only_forallb (s : jsstring) :
  forallb (fun c => negb (is_surrogate c)) s = true -> bmp_only s.
Proof using Type.
  clear. induction s as [|c s IH]; simpl; intros H; [constructor|].
  apply andb_true_iff in H as [Hc Hs]. apply negb_true_iff in Hc.
  constructor; [exact Hc | exact (IH Hs)].
Qed.

(** *** The word count *)

Lemma split_spaces_words (s cur : jsstring) (in_sep : bool) :
  (in_sep = true -> cur = []) ->
  List.length
    (List.filter (fun w => (0 <? List.length w)%nat)
       (split_spaces_aux s cur in_sep))
  = ((match cur with [] => 0 | _ => 1 end)
     + word_starts s (match cur with [] => false | _ => true end))%nat.
Proof.
  revert cur in_sep. induction s as [|c s IH]; intros cur in_sep Hsep.
  - cbn [split_spaces_aux word_starts List.filter].
    destruct cur as [|x cur]; [reflexivity|].
    assert ((0 <? List.length (List.rev (x :: cur)))%nat = true) as ->.
    { apply Nat.ltb_lt. rewrite length_rev. simpl. lia. }
    reflexivity.
  - cbn [split_spaces_aux word_starts]. destruct (is_space c).
    + destruct in_sep.
      * rewrite (Hsep eq_refl). by rewrite IH.
      * cbn [List.filter]. destruct cur as [|x cur].
        -- cbn. by rewrite IH.
        -- assert ((0 <? List.length (List.rev (x :: cur)))%nat = true) as ->.
           { apply Nat.ltb_lt. rewrite length_rev. simpl. lia. }
           cbn [List.length]. by rewrite IH.
    + rewrite IH by discriminate. destruct cur; lia.
Qed.

Lemma word_starts_space_end (s : jsstring) (c : N) (in_word : bool) :
  is_space c = true -> word_starts (s ++ [c]) in_word = word_starts s in_word.
Proof.
  intros Hc. revert in_word. induction s as [|d s IH]; intros in_word; simpl.
  - by rewrite Hc.
  - destruct (is_space d); by rewrite IH.
Qed.

Lemma word_starts_trim_start (s : jsstring) :
  word_starts (trim_start s) false = word_starts s false.
Proof.
  induction s as [|c s IH]; [reflexivity|].
  cbn [trim_start]. destruct (is_space c) eqn:E; [|reflexivity].
  cbn [word_starts]. by rewrite E.
Qed.

Lemma word_starts_trim_end (u : jsstring) :
  word_starts (List.rev (trim_start u)) false = word_starts (List.rev u) false.
Proof.
  induction u as [|c u IH]; [reflexivity|].
  cbn [trim_start]. destruct (is_space c) eqn:E; [|reflexivity].
  cbn [List.rev]. by rewrite word_starts_space_end.
Qed.

Lemma word_starts_blank (s : jsstring) :
  forallb is_space s = true -> word_starts s false = 0%nat.
Proof.
  induction s as [|c s IH]; [reflexivity|]. simpl. intros H.
  apply andb_true_iff in H as [-> H]. auto.
Qed.

Lemma word_starts_solid (s : jsstring) (in_word : bool) :
  forallb (fun c => negb (is_space c)) s = true ->
  word_starts s in_word
  = match s with [] => 0 | _ => if in_word then 0 else 1 end%nat.
Proof.
  revert in_word. induction s as [|c s IH]; intros in_word; [reflexivity|].
  simpl. intros H. apply andb_true_iff in H as [Hc H].
  apply negb_true_iff in Hc. rewrite Hc, (IH true H).
  destruct s; destruct in_word; reflexivity.
Qed.

(** [word_count] is the number of maximal runs of code units that are not
    white space: the [trim] and the [filter] of the source only discard
    empty pieces. So a value of white space only (the empty value too) has
    no word, and a value without white space that is not empty has one. *)
Theorem word_count_runs (s : jsstring) :
  let n := prop_word_count (computeProperties toLowerCase sha256_hex s) in
  n = word_starts s false
  /\ (forallb is_space s = true -> n = 0%nat)
  /\ (s <> [] -> forallb (fun c => negb (is_space c)) s = true -> n = 1%nat).
Proof.
  intros n.
  assert (n = word_starts s false) as Hn.
  { unfold n. simpl. unfold split_spaces.
    rewrite split_spaces_words by discriminate. simpl.
    unfold trim. rewrite word_starts_trim_end, rev_involutive.
    apply word_starts_trim_start. }
  split; [exact Hn|]. rewrite Hn. split.
  - apply word_starts_blank.
  - intros Hne Hs. rewrite (word_starts_solid s false Hs).
    destruct s; [done | reflexivity].
Qed.

(** *** More on the interpreter *)

(** Case analysis on the seven triggers of [parseNaturalLanguage]; a
    pattern that matches has a group that [parseInt] reads. *)
Ltac trigger_cases lq :=
  unfold parseNaturalLanguage, fires, matched, rule_first_vowel, rule_contains,
    rule_shorter, rule_longer, rule_palindrome, rule_word_count;
  let c := fresh "c" in let E := fresh "E" in let n := fresh "n" in
  destruct (exec re_word_count lq) as [c|] eqn:E;
    [destruct (word_count_capture _ _ E) as (n & -> & ?)|];
  let c := fresh "c" in let E := fresh "E" in let n := fresh "n" in
  destruct (exec re_longer lq) as [c|] eqn:E;
    [destruct (length_capture _ _ (or_introl E)) as (n & -> & ?)|];
  let c := fresh "c" in let E := fresh "E" in let n := fresh "n" in
  destruct (exec re_shorter lq) as [c|] eqn:E;
    [destruct (length_capture _ _ (or_intror E)) as (n & -> & ?)|];
  let c := fresh "c" in let E := fresh "E" in let u := fresh "u" in
  let Hu := fresh "Hu" in
  destruct (exec re_contains lq) as [c|] eqn:E;
    [destruct (contains_capture _ _ E) as (u & -> & Hu)|];
  destruct (includes lq (lit "single word"));
  destruct (includes lq (lit "palindrom"));
  destruct (includes lq (lit "first vowel")).

(** Whatever the query, the filter that the interpreter returns has this
    shape: [is_palindrome] is never [false], [word_count] is not negative,
    [min_length] is at least 1, [max_length] is at least -1, and
    [contains_character] is one lower-case Basic Latin letter. *)
Theorem interpreter_filter_shape (query : jsstring) :
  interpreter_shape (parseNaturalLanguage toLowerCase query).
Proof.
  trigger_cases (toLowerCase query).
  all: unfold interpreter_shape; cbn -[num_add num_leb].
  all: repeat split; try discriminate.
  all: try (intros ? [= <-]; reflexivity || assumption).
  all: try (intros ? [= <-]; by apply num_add_one).
  all: try (intros ? [= <-]; by apply num_sub_one).
  all: intros ? [= <-]; eexists; split; reflexivity || eassumption.
Qed.

(** *** More on [GET /strings] *)

(** An accepted request has sent the store the query of the filter that
    the response reports, and the data are the answer to that query. *)
Lemma get_strings_accepted (p : query_params) (st st' : store)
  (data : list doc) (n : nat) (f : filters) (tr : list store_call) :
  run (get_strings p) st = (Response 200 (BList data n f), st', tr) ->
  st' = st /\ tr = [CallFind (filters_query f)]
  /\ data = merge_sort newer_first (List.filter (matches (filters_query f)) st)
  /\ n = List.length data.
Proof using Type.
  clear toLowerCase sha256_hex decodeURIComponent.
  destruct p as [pal mn mx wc cc qq].
  unfold run, get_strings, bind, with_is_palindrome, with_min_length,
    with_max_length, with_word_count, with_contains_character, find, ret,
    reply;
    cbn [qp_is_palindrome qp_min_length qp_max_length qp_word_count
         qp_contains_character].
  list_cases;
    cbn -[InvalidValueFor NotSingleCharacter merge_sort strict_equals lit].
  all: intros [= <- <- <- <- <-] || (intros H; discriminate H).
  all: repeat split; reflexivity.
Qed.

Lemma matches_passes (f : filters) (d : doc) :
  matches (filters_query f) d = true <-> passes f d.
Proof using Type.
  clear toLowerCase sha256_hex decodeURIComponent.
  destruct f as [pal mn mx wc cc]. unfold matches, passes, holds.
  cbn [filters_query q_is_palindrome q_length_gte q_length_lte q_word_count
       q_has_character flt_is_palindrome flt_min_length flt_max_length
       flt_word_count flt_contains_character].
  rewrite !andb_true_iff. split.
  - intros [[[[H1 H2] H3] H4] H5]. repeat split.
    + intros b [= ->]. by apply eqb_prop.
    + by intros n [= ->].
    + by intros n [= ->].
    + intros n [= ->]. by apply num_eqb_eq.
    + intros c [= ->].
      destruct (prop_character_frequency_map (doc_properties d) !! c) as [k|];
        [|discriminate].
      exists k. split; [done|]. by apply Nat.leb_le.
  - intros (H1 & H2 & H3 & H4 & H5). repeat split.
    + destruct pal as [b|]; [|done]. rewrite (H1 b eq_refl). apply eqb_reflx.
    + destruct mn as [n|]; [|done]. by apply H2.
    + destruct mx as [n|]; [|done]. by apply H3.
    + destruct wc as [n|]; [|done]. apply num_eqb_eq. by apply H4.
    + destruct cc as [c|]; [|done].
      destruct (H5 c eq_refl) as (k & -> & Hk). by apply Nat.leb_le.
Qed.

Lemma newer_first_total : Total newer_first.
Proof using Type. clear. intros a b. unfold newer_first. lia. Qed.

Lemma newer_first_transitive : Transitive newer_first.
Proof using Type. clear. intros a b c. unfold newer_first. lia. Qed.

(** When the list handler answers 200, the data are exactly the documents
    of the store that pass every field of the filter it reports, each one
    as often as the store holds it, newest first, and [count] is their
    number; the store is left as it was. The characters [.] and [$] are
    left out: inside the key of the query MongoDB reads them as part of a
    path. *)
Theorem get_strings_selects (p : query_params) (st st' : store)
  (data : list doc) (n : nat) (f : filters) (tr : list store_call) :
  run (get_strings p) st = (Response 200 (BList data n f), st', tr) ->
  flt_contains_character f <> Some (lit ".") ->
  flt_contains_character f <> Some (lit "$") ->
  st' = st
  /\ n = List.length data
  /\ (forall d, d ∈ data <-> d ∈ st /\ passes f d)
  /\ data ≡ₚ List.filter (matches (filters_query f)) st
  /\ StronglySorted newer_first data.
Proof using Type.
  clear toLowerCase sha256_hex decodeURIComponent.
  intros H _ _. apply get_strings_accepted in H as (-> & _ & -> & ->).
  split; [reflexivity|]. split; [reflexivity|]. split; [|split].
  - intros d. rewrite merge_sort_Permutation.
    rewrite list_elem_of_In, filter_In, <- list_elem_of_In.
    by rewrite matches_passes.
  - apply merge_sort_Permutation.
  - apply (@StronglySorted_merge_sort _ newer_first _
             newer_first_transitive newer_first_total).
Qed.

Lemma filter_all (st : store) : List.filter (matches no_query) st = st.
Proof using Type. clear. induction st as [|d st IH]; [done|]. simpl. by rewrite IH. Qed.

(** A request without any of the five filter parameters is answered with
    every document of the store, newest first. *)
Theorem get_strings_without_filter (p : query_params) (st : store) :
  qp_is_palindrome p = None -> qp_min_length p = None ->
  qp_max_length p = None -> qp_word_count p = None ->
  qp_contains_character p = None ->
  run (get_strings p) st
  = (Response 200 (BList (merge_sort newer_first st) (List.length st) no_filters),
     st, [CallFind no_query])
  /\ merge_sort newer_first st ≡ₚ st.
Proof using Type.
  clear toLowerCase sha256_hex decodeURIComponent.
  destruct p as [pal mn mx wc cc qq]. cbn. intros -> -> -> -> ->.
  split; [|apply merge_sort_Permutation].
  unfold run, get_strings, bind, with_is_palindrome, with_min_length,
    with_max_length, with_word_count, with_contains_character, find, ret.
  cbn -[merge_sort]. rewrite filter_all.
  by rewrite (Permutation_length (merge_sort_Permutation newer_first st)).
Qed.

(** The bounds are not checked against each other: a request whose
    [min_length] exceeds its [max_length] is accepted and answered with no
    document. *)
Theorem get_strings_empty_range (p : query_params) (st st' : store)
  (data : list doc) (n : nat) (f : filters) (tr : list store_call)
  (a b : number) :
  run (get_strings p) st = (Response 200 (BList data n f), st', tr) ->
  flt_min_length f = Some a -> flt_max_length f = Some b ->
  num_leb a b = false ->
  data = [] /\ n = 0%nat.
Proof using Type.
  clear toLowerCase sha256_hex decodeURIComponent.
  intros H Ha Hb Hab. apply get_strings_accepted in H as (-> & _ & -> & ->).
  assert (List.filter (matches (filters_query f)) st = []) as ->.
  { induction st as [|d st IH]; [done|]. simpl.
    destruct (matches (filters_query f) d) eqn:E; [|exact IH].
    apply matches_passes in E as (_ & H1 & H2 & _).
    specialize (H1 a Ha). specialize (H2 b Hb).
    rewrite (num_leb_trans _ _ _ H1 H2) in Hab. discriminate Hab. }
  split; reflexivity.
Qed.

Lemma derived_has_character (v c : jsstring) :
  (exists k, prop_character_frequency_map
               (computeProperties toLowerCase sha256_hex v) !! c = Some k
             /\ (1 <= k)%nat)
  <-> c ∈ chars v.
Proof.
  simpl. split.
  - intros (k & Hk & _). apply elem_of_dom_2 in Hk.
    rewrite count_chars_dom, dom_empty_L, (left_id_L ∅ (∪)) in Hk.
    by apply elem_of_list_to_set in Hk.
  - intros Hc. pose proof (count_chars_lookup (chars v) ∅ c) as H.
    rewrite lookup_empty in H. simpl in H.
    destruct (count_chars ∅ (chars v) !! c) as [k|] eqn:E.
    + exists k. split; [done|]. rewrite or_zero_some in H. rewrite H.
      destruct (List.filter (fun x => str_eqb x c) (chars v)) eqn:F;
        [|simpl; lia].
      exfalso. apply list_elem_of_In in Hc.
      assert (In c (List.filter (fun x => str_eqb x c) (chars v))) as Hin
        by (apply filter_In; split; [done | apply str_eqb_refl]).
      rewrite F in Hin. destruct Hin.
    + exfalso. apply not_elem_of_dom in E. apply E.
      rewrite count_chars_dom, dom_empty_L, (left_id_L ∅ (∪)).
      by apply elem_of_list_to_set.
Qed.

(** On a store whose documents carry the properties of their value, a
    request with [contains_character] alone, one code unit long and
    neither [.] nor [$], is answered with exactly the documents in whose
    value that character occurs as a code point (so case matters, and half
    of a surrogate pair does not count). *)
Theorem contains_character_selects (st : store) (c : jsstring)
  (qq : option jsvalue) :
  store_derived toLowerCase sha256_hex st -> List.length c = 1%nat ->
  c <> lit "." -> c <> lit "$" ->
  exists data,
    run (get_strings
           {| qp_is_palindrome := None; qp_min_length := None;
              qp_max_length := None; qp_word_count := None;
              qp_contains_character := Some (VStr c); qp_query := qq |}) st
    = (Response 200
         (BList data (List.length data) (set_contains_character c no_filters)),
       st, [CallFind (filters_query (set_contains_character c no_filters))])
    /\ forall d, d ∈ data <-> d ∈ st /\ c ∈ chars (doc_value d).
Proof.
  intros Hst Hc _ _.
  exists (merge_sort newer_first
            (List.filter
               (matches (filters_query (set_contains_character c no_filters)))
               st)).
  split.
  - unfold run, get_strings, bind, with_is_palindrome, with_min_length,
      with_max_length, with_word_count, with_contains_character, find, ret,
      reply.
    cbn [qp_is_palindrome qp_min_length qp_max_length qp_word_count
         qp_contains_character].
    rewrite Hc. reflexivity.
  - intros d. rewrite merge_sort_Permutation.
    rewrite list_elem_of_In, filter_In, <- list_elem_of_In.
    rewrite matches_passes. split.
    + intros [Hd (_ & _ & _ & _ & H)]. split; [done|].
      apply derived_has_character.
      rewrite <- (proj1 (Forall_forall _ _) Hst d Hd). by apply H.
    + intros [Hd Hin]. split; [done|]. repeat split; try discriminate.
      intros c' [= <-].
      rewrite (proj1 (Forall_forall _ _) Hst d Hd).
      by apply derived_has_character.
Qed.

(** *** More on the store and the handlers *)

(** What one request can do to the store: nothing, append the document of
    a value, or remove the first document of a value. *)
Lemma app_store_cases (req : request) (now : Z) (st : store) :
  let st' := (run (app toLowerCase sha256_hex decodeURIComponent req now) st).1.2 in
  st' = st
  \/ (exists v, st' = st ++ [new_document toLowerCase sha256_hex v now])
  \/ (exists v, st' = remove_value v st).
Proof.
  unfold app.
  destruct (first_route routes (req_method req) (req_path req))
    as [[e param]|]; [|by left].
  destruct e.
  - destruct (req_body_value req) as [[|v|x t]|]; try by left.
    unfold run, post_strings, bind, post_check, findById, post_insert, bind,
      save, ret, reply.
    change (prop_sha256_hash (computeProperties toLowerCase sha256_hex v))
      with (sha256_hex v).
    destruct (List.find _ st); [by left|].
    cbn -[duplicate_key computeProperties validates].
    change (prop_sha256_hash (computeProperties toLowerCase sha256_hex v))
      with (sha256_hex v).
    destruct (validates _); cbn [negb]; [|by left].
    destruct (duplicate_key _ st); [by left|]. right. left. by exists v.
  - unfold with_param. destruct param as [raw|]; [|by left].
    destruct (decodeURIComponent raw) as [v|]; [|by left].
    unfold run, get_string, bind, findOne.
    destruct (decodeURIComponent v); [|by left].
    destruct (List.find _ st); by left.
  - destruct (get_strings_outcome toLowerCase sha256_hex decodeURIComponent
                (req_query req) st)
      as [(r & -> & _) | (q & f & -> & _)]; by left.
  - unfold run, filter_by_natural_language, bind, find.
    destruct (falsy _); [by left|].
    destruct (qp_query (req_query req)) as [[|s|x t]|]; try by left.
    destruct (filters_keys _ =? 0)%nat; by left.
  - unfold with_param. destruct param as [raw|]; [|by left].
    destruct (decodeURIComponent raw) as [v|]; [|by left].
    unfold run, delete_string, bind, findOneAndDelete.
    destruct (decodeURIComponent v) as [w|]; [|by left].
    right. right. exists w. destruct (List.find _ st); reflexivity.
  - by left.
Qed.

Lemma store_derived_remove (v : jsstring) (st : store) :
  store_derived toLowerCase sha256_hex st ->
  store_derived toLowerCase sha256_hex (remove_value v st).
Proof.
  unfold store_derived. rewrite !Forall_forall. intros H d Hd.
  apply H. by apply (remove_value_subset v).
Qed.

Lemma count_value_le (v : jsstring) (st : store) :
  store_ok sha256_hex st -> (count_value v st <= 1)%nat.
Proof.
  intros Hok.
  destruct (List.find (fun x => str_eqb (doc_value x) v) st) as [d|] eqn:E.
  - apply find_some in E as [Hd Hv]. apply str_eqb_eq in Hv.
    rewrite (count_value_one sha256_hex v st Hok); [lia|].
    exists d. split; [by apply list_elem_of_In | done].
  - rewrite count_value_none; [lia|]. intros e He Hv.
    apply list_elem_of_In in He.
    pose proof (find_none _ _ E e He) as Hx. simpl in Hx.
    rewrite Hv, str_eqb_refl in Hx. discriminate.
Qed.

(** Every store that the service reaches from the empty collection is
    consistent: each document carries the properties that
    [computeProperties] gives its value, its [_id] is the hash stored in
    those properties, and no value has two documents. *)
Theorem reachable_consistent (st : store) :
  reachable toLowerCase sha256_hex decodeURIComponent st ->
  store_derived toLowerCase sha256_hex st
  /\ Forall (fun d => doc_id d = prop_sha256_hash (doc_properties d)) st
  /\ forall v, (count_value v st <= 1)%nat.
Proof.
  intros H.
  assert (store_ok sha256_hex st /\ store_derived toLowerCase sha256_hex st)
    as [Hok Hd].
  { induction H as [|st req now _ [IHok IHd]].
    - split; [apply store_ok_nil | constructor].
    - split; [by apply app_store_ok|].
      destruct (app_store_cases req now st) as [-> | [[v ->] | [v ->]]].
      + done.
      + apply Forall_app. split; [done|]. by apply Forall_singleton.
      + by apply store_derived_remove. }
  split; [exact Hd|]. split.
  - destruct Hok as [_ Hid]. unfold store_derived in Hd.
    rewrite Forall_forall in *. intros d Hin.
    rewrite (Hd d Hin). simpl. by apply Hid.
  - intros v. by apply count_value_le.
Qed.

(** *** More on the requests *)

Lemma post_strings_outcome (value : option jsvalue) (now : Z) (st : store) :
  store_ok sha256_hex st ->
  run (post_strings toLowerCase sha256_hex value now) st
  = match value with
    | None | Some VNull => (MissingValue, st, [])
    | Some (VOther _ _) => (InvalidType, st, [])
    | Some (VStr v) =>
        if has_digest sha256_hex v st
        then (Conflict, st, [CallFindById (sha256_hex v)])
        else
          match v with
          | [] =>
              (InternalError, st,
               [CallFindById (sha256_hex v);
                CallSave (new_document toLowerCase sha256_hex v now)])
          | _ :: _ =>
              (Response 201 (BDoc (new_document toLowerCase sha256_hex v now)),
               st ++ [new_document toLowerCase sha256_hex v now],
               [CallFindById (sha256_hex v);
                CallSave (new_document toLowerCase sha256_hex v now)])
          end
    end.
Proof.
  intros Hok. destruct value as [[|v|x t]|]; try reflexivity.
  destruct (has_digest sha256_hex v st) eqn:E.
  - unfold has_digest in E. apply existsb_exists in E as (e & He & Hid).
    destruct (List.find (fun x => str_eqb (doc_id x) (sha256_hex v)) st)
      as [e'|] eqn:F.
    + by apply (post_strings_conflict toLowerCase sha256_hex st v now e').
    + pose proof (find_none _ _ F e He) as Hx. simpl in Hx. congruence.
  - apply has_digest_find in E. destruct v as [|c v].
    + by apply (post_strings_refused toLowerCase sha256_hex st now).
    + by apply (post_strings_created toLowerCase sha256_hex st (c :: v) now Hok).
Qed.

(** On a store that satisfies the invariant, [POST /strings] has five
    answers and no other: 400 for a missing or null value, 422 for a value
    that is not a string, 409 when a document exists under the digest of
    the value, 500 for the empty string (which the schema refuses), 201
    otherwise. A string value that is not empty and has no document under
    its digest is answered 201; a 201 comes with exactly one appended
    document, the one of the value; any other answer leaves the store as
    it was. *)
Theorem create_outcomes (value : option jsvalue) (now : Z) (st st' : store)
  (r : response) (tr : list store_call) :
  store_ok sha256_hex st ->
  run (post_strings toLowerCase sha256_hex value now) st = (r, st', tr) ->
  (r = MissingValue \/ r = InvalidType \/ r = Conflict
   \/ (r = InternalError /\ value = Some (VStr []))
   \/ status r = 201%nat)
  /\ (forall v, value = Some (VStr v) -> v <> [] ->
        has_digest sha256_hex v st = false -> status r = 201%nat)
  /\ (status r = 201%nat ->
      exists v, value = Some (VStr v) /\ v <> []
        /\ r = Response 201 (BDoc (new_document toLowerCase sha256_hex v now))
        /\ st' = st ++ [new_document toLowerCase sha256_hex v now])
  /\ (status r <> 201%nat -> st' = st).
Proof.
  clear decodeURIComponent.
  intros Hok. rewrite (post_strings_outcome value now st Hok).
  destruct value as [[|v|x t]|];
    try destruct (has_digest sha256_hex v st) eqn:E; try destruct v as [|c v].
  all: intros [= <- <- <-]; split; [tauto|]; split; [|split].
  all: try (intros ? [= <-] ? ?; done || congruence).
  all: try (intros ? H; discriminate H).
  all: try (intros H; discriminate H); try reflexivity.
  all: try (intros H; exfalso; by apply H).
  intros _. by exists (c :: v).
Qed.

Lemma find_value_last (st : store) (d : doc) :
  store_ok sha256_hex st -> doc_id d = sha256_hex (doc_value d) ->
  List.find (fun x => str_eqb (doc_id x) (doc_id d)) st = None ->
  List.find (fun x => str_eqb (doc_value x) (doc_value d)) (st ++ [d]) = Some d.
Proof.
  intros Hok Hid Hf.
  assert (List.find (fun x => str_eqb (doc_value x) (doc_value d)) st = None)
    as Hv.
  { destruct (List.find (fun x => str_eqb (doc_value x) (doc_value d)) st)
      as [e|] eqn:E; [|reflexivity].
    apply find_some in E as [He Hev]. apply str_eqb_eq in Hev.
    pose proof (find_none _ _ Hf e He) as Hx. simpl in Hx.
    apply str_eqb_neq in Hx. exfalso. apply Hx.
    apply list_elem_of_In in He.
    rewrite (store_ok_id sha256_hex st e Hok He), Hid. congruence. }
  clear Hf. induction st as [|x st IH]; simpl in *.
  - by rewrite str_eqb_refl.
  - destruct (str_eqb (doc_value x) (doc_value d)); [discriminate|].
    apply IH; [|exact Hv].
    by destruct (store_ok_cons sha256_hex x st Hok) as (_ & _ & ?).
Qed.

(** A value that has just been created is found: after a 201, fetching
    the value (one that [decodeURIComponent] leaves as it is) answers 200
    with the very document of the 201. *)
Theorem create_then_get (v : jsstring) (now : Z) (st st' : store)
  (r : response) (tr : list store_call) :
  store_ok sha256_hex st -> decodeURIComponent v = Some v ->
  run (post_strings toLowerCase sha256_hex (Some (VStr v)) now) st
  = (r, st', tr) ->
  status r = 201%nat ->
  run (get_string decodeURIComponent v) st'
  = (Response 200 (payload r), st', [CallFindOne v]).
Proof.
  intros Hok Hdec. rewrite (post_strings_outcome _ now st Hok).
  destruct (has_digest sha256_hex v st) eqn:E.
  - intros [= <- <- <-] H. discriminate H.
  - destruct v as [|c v]; [intros [= <- <- <-] H; discriminate H|].
    intros [= <- <- <-] _.
    rewrite (get_string_run decodeURIComponent _ (c :: v) Hdec).
    apply has_digest_find in E.
    pose proof (find_value_last st
                  (new_document toLowerCase sha256_hex (c :: v) now)
                  Hok eq_refl E) as Hf.
    cbn [new_document doc_value] in Hf. rewrite Hf. reflexivity.
Qed.

Lemma count_value_remove (v w : jsstring) (st : store) :
  count_value w (remove_value v st)
  = if decide (w = v) then Nat.pred (count_value w st) else count_value w st.
Proof using Type.
  clear. unfold count_value. induction st as [|d st IH]; simpl.
  - by destruct (decide (w = v)).
  - destruct (str_eqb (doc_value d) v) eqn:E.
    + apply str_eqb_eq in E. destruct (decide (w = v)) as [->|Hne].
      * rewrite <- E, str_eqb_refl. reflexivity.
      * destruct (str_eqb (doc_value d) w) eqn:F; [|reflexivity].
        apply str_eqb_eq in F. congruence.
    + apply str_eqb_neq in E. simpl.
      destruct (str_eqb (doc_value d) w) eqn:F; simpl; rewrite IH.
      * apply str_eqb_eq in F.
        destruct (decide (w = v)) as [->|Hne]; [congruence | reflexivity].
      * reflexivity.
Qed.

Lemma count_value_has (v : jsstring) (st : store) :
  count_value v st = 0%nat -> ~ has_value v st.
Proof using Type.
  clear. unfold count_value. intros H (d & Hd & Hv).
  apply list_elem_of_In in Hd.
  assert (In d (List.filter (fun x => str_eqb (doc_value x) v) st)) as Hin
    by (apply filter_In; split; [done | by apply str_eqb_eq]).
  destruct (List.filter _ st); [destruct Hin | discriminate].
Qed.

Lemma remove_value_absent (v : jsstring) (st : store) :
  ~ has_value v st -> remove_value v st = st.
Proof using Type.
  clear. induction st as [|d st IH]; [done|]. intros H. simpl.
  destruct (str_eqb (doc_value d) v) eqn:E.
  - apply str_eqb_eq in E. exfalso. apply H. exists d. split; [left | done].
  - f_equal. apply IH. intros (e & He & Hv). apply H. exists e.
    split; [by right | done].
Qed.

(** [DELETE /strings/:string_value] on a store that satisfies the
    invariant, for a value that [decodeURIComponent] leaves as it is: if
    the value has a document the answer is 204 and afterwards the value
    has none, while every other value keeps its documents; if it has none
    the answer is NotFound and the store is as before. So a second delete
    of the same value answers NotFound. *)
Theorem delete_outcomes (v : jsstring) (st : store) :
  store_ok sha256_hex st -> decodeURIComponent v = Some v ->
  (has_value v st ->
     run (delete_string decodeURIComponent v) st
     = (Response 204 BEmpty, remove_value v st, [CallFindOneAndDelete v])
     /\ ~ has_value v (remove_value v st)
     /\ (forall w, w <> v ->
           count_value w (remove_value v st) = count_value w st)
     /\ run (delete_string decodeURIComponent v) (remove_value v st)
        = (NotFound, remove_value v st, [CallFindOneAndDelete v]))
  /\ (~ has_value v st ->
      run (delete_string decodeURIComponent v) st
      = (NotFound, st, [CallFindOneAndDelete v])).
Proof.
  intros Hok Hdec.
  assert (forall s, ~ has_value v s ->
            run (delete_string decodeURIComponent v) s
            = (NotFound, s, [CallFindOneAndDelete v])) as Habsent.
  { intros s Hs. unfold run, delete_string, bind, findOneAndDelete.
    rewrite Hdec. pose proof (find_by_value s v) as Hf.
    destruct (List.find _ s) as [d|].
    - exfalso. apply Hs. exists d. by destruct Hf.
    - simpl. by rewrite (remove_value_absent v s Hs). }
  split; [|apply Habsent].
  intros Hv.
  assert (~ has_value v (remove_value v st)) as Hgone.
  { apply count_value_has. rewrite count_value_remove.
    destruct (decide (v = v)); [|done].
    by rewrite (count_value_one sha256_hex v st Hok Hv). }
  split; [|split; [exact Hgone | split; [|by apply Habsent]]].
  - unfold run, delete_string, bind, findOneAndDelete. rewrite Hdec.
    pose proof (find_by_value st v) as Hf.
    destruct (List.find _ st) as [d|]; [reflexivity | contradiction].
  - intros w Hw. rewrite count_value_remove. by destruct (decide (w = v)).
Qed.

Lemma store_ok_injective (st : store) (d e : doc) :
  store_ok sha256_hex st -> d ∈ st -> e ∈ st -> doc_id d = doc_id e -> d = e.
Proof.
  induction st as [|x st IH]; intros Hok Hd He Hid.
  - by apply elem_of_nil in Hd.
  - destruct (store_ok_cons sha256_hex x st Hok) as (_ & Hfresh & Hok').
    apply elem_of_cons in Hd as [->|Hd]; apply elem_of_cons in He as [->|He].
    + reflexivity.
    + exfalso. by apply (Hfresh e He).
    + exfalso. by apply (Hfresh d Hd).
    + by apply IH.
Qed.

(** A deleted value can be created again: on a store that satisfies the
    invariant, after the delete of a value that has a document and is not
    empty, its creation answers 201. *)
Theorem create_after_delete (v : jsstring) (now : Z) (st : store) :
  store_ok sha256_hex st -> v <> [] -> has_value v st ->
  run (post_strings toLowerCase sha256_hex (Some (VStr v)) now)
    (remove_value v st)
  = (Response 201 (BDoc (new_document toLowerCase sha256_hex v now)),
     remove_value v st ++ [new_document toLowerCase sha256_hex v now],
     [CallFindById (sha256_hex v);
      CallSave (new_document toLowerCase sha256_hex v now)]).
Proof.
  intros Hok Hne (d & Hd & Hv).
  rewrite (post_strings_outcome _ now _ (store_ok_remove sha256_hex v st Hok)).
  destruct (has_digest sha256_hex v (remove_value v st)) eqn:E;
    [|destruct v; [done | reflexivity]].
  exfalso. unfold has_digest in E. apply existsb_exists in E as (e & He & Hid).
  apply str_eqb_eq in Hid. apply list_elem_of_In in He.
  assert (e = d) as ->.
  { apply (store_ok_injective st); [done | by apply (remove_value_subset v)
      | done |]. rewrite Hid, (store_ok_id sha256_hex st d Hok Hd). by rewrite Hv. }
  assert (count_value v (remove_value v st) = 0%nat) as Hz.
  { rewrite count_value_remove. destruct (decide (v = v)); [|done].
    rewrite (count_value_one sha256_hex v st Hok); [reflexivity|].
    by exists d. }
  apply (count_value_has v _ Hz). by exists d.
Qed.

Lemma route_get_string (raw : jsstring) :
  raw <> [] ->
  first_route routes GET [lit "strings"; raw] = Some (GetString, Some raw).
Proof using Type. clear. destruct raw as [|c raw]; [done|]. intros _. reflexivity. Qed.

(** The value that [GET /strings/<segment>] looks up is the segment
    decoded twice, once by Express for [req.params] and once by the
    handler: when the second decoding throws the answer is 500 and the
    store is not asked; otherwise the store is asked for the twice-decoded
    text. *)
Theorem get_decodes_twice (raw once : jsstring) (q : query_params)
  (body : option jsvalue) (now : Z) (st : store) :
  raw <> [] -> decodeURIComponent raw = Some once ->
  let answer :=
    run (app toLowerCase sha256_hex decodeURIComponent
           {| req_method := GET; req_path := [lit "strings"; raw];
              req_query := q; req_body_value := body |} now) st in
  (decodeURIComponent once = None -> answer = (InternalError, st, []))
  /\ (forall twice, decodeURIComponent once = Some twice ->
        answer
        = (match List.find (fun x => str_eqb (doc_value x) twice) st with
           | Some d => Response 200 (BDoc d)
           | None => NotFound
           end, st, [CallFindOne twice])).
Proof.
  intros Hraw Hdec answer. unfold answer, app.
  cbn [req_method req_path]. rewrite (route_get_string raw Hraw).
  unfold with_param. rewrite Hdec. unfold run, get_string, bind, findOne.
  split.
  - intros ->. reflexivity.
  - intros twice ->. destruct (List.find _ st); reflexivity.
Qed.

Lemma get_never_writes (path : list jsstring) (param : option jsstring) :
  first_route routes GET path <> Some (CreateString, param)
  /\ first_route routes GET path <> Some (DeleteString, param).
Proof using Type.
  clear. unfold routes.
  split; cbn [first_route method_eqb match_path]; route_cases.
Qed.

(** A [GET] request, whatever its path and parameters, leaves the store as
    it is and makes no [save] and no [findOneAndDelete]. *)
Theorem get_requests_read_only (req : request) (now : Z) (st : store) :
  req_method req = GET ->
  (run (app toLowerCase sha256_hex decodeURIComponent req now) st).1.2 = st
  /\ forallb (fun c => negb (is_write c))
       (run (app toLowerCase sha256_hex decodeURIComponent req now) st).2
     = true.
Proof.
  intros Hm. unfold app. rewrite Hm.
  destruct (first_route routes GET (req_path req)) as [[e param]|] eqn:R;
    [|split; reflexivity].
  destruct e.
  - exfalso. by apply (proj1 (get_never_writes (req_path req) param)).
  - unfold with_param. destruct param as [raw|]; [|split; reflexivity].
    destruct (decodeURIComponent raw) as [v|]; [|split; reflexivity].
    unfold run, get_string, bind, findOne.
    destruct (decodeURIComponent v); [|split; reflexivity].
    destruct (List.find _ st); split; reflexivity.
  - destruct (get_strings_outcome toLowerCase sha256_hex decodeURIComponent
                (req_query req) st)
      as [(r & -> & _) | (q & f & -> & _)]; split; reflexivity.
  - unfold run, filter_by_natural_language, bind, find.
    destruct (falsy _); [split; reflexivity|].
    destruct (qp_query (req_query req)) as [[|s|x t]|]; try (split; reflexivity).
    destruct (filters_keys _ =? 0)%nat; split; reflexivity.
  - exfalso. by apply (proj2 (get_never_writes (req_path req) param)).
  - split; reflexivity.
Qed.

(** Whatever the request, an answer 400 or 422 is given before the store
    is touched: no store call has been made and the store is as it was. *)
Theorem validation_before_store (req : request) (now : Z) (st st' : store)
  (r : response) (tr : list store_call) :
  run (app toLowerCase sha256_hex decodeURIComponent req now) st = (r, st', tr) ->
  status r = 400%nat \/ status r = 422%nat ->
  tr = [] /\ st' = st.
Proof.
  unfold app.
  destruct (first_route routes (req_method req) (req_path req))
    as [[e param]|]; [|intros [= <- <- <-] [H|H]; discriminate H].
  destruct e.
  - destruct (req_body_value req) as [[|v|x t]|];
      try (intros [= <- <- <-] _; split; reflexivity).
    unfold run, post_strings, bind, post_check, findById, post_insert, bind,
      save, ret, reply.
    destruct (List.find _ st);
      [intros [= <- <- <-] [H|H]; discriminate H|].
    cbn -[duplicate_key computeProperties validates].
    destruct (validates _); cbn [negb];
      [|intros [= <- <- <-] [H|H]; discriminate H].
    destruct (duplicate_key _ st); intros [= <- <- <-] [H|H]; discriminate H.
  - unfold with_param. destruct param as [raw|];
      [|intros [= <- <- <-] [H|H]; discriminate H].
    destruct (decodeURIComponent raw) as [v|];
      [|intros [= <- <- <-] _; split; reflexivity].
    unfold run, get_string, bind, findOne.
    destruct (decodeURIComponent v);
      [|intros [= <- <- <-] [H|H]; discriminate H].
    destruct (List.find _ st); intros [= <- <- <-] [H|H]; discriminate H.
  - destruct (get_strings_outcome toLowerCase sha256_hex decodeURIComponent
                (req_query req) st)
      as [(r0 & -> & _) | (q & f & -> & _)].
    + intros [= <- <- <-] _. split; reflexivity.
    + intros [= <- <- <-] [H|H]; discriminate H.
  - unfold run, filter_by_natural_language, bind, find.
    destruct (falsy _); [intros [= <- <- <-] _; split; reflexivity|].
    destruct (qp_query (req_query req)) as [[|s|x t]|];
      try (intros [= <- <- <-] [H|H]; discriminate H).
    destruct (filters_keys _ =? 0)%nat.
    + intros [= <- <- <-] _. split; reflexivity.
    + intros [= <- <- <-] [H|H]; discriminate H.
  - unfold with_param. destruct param as [raw|];
      [|intros [= <- <- <-] [H|H]; discriminate H].
    destruct (decodeURIComponent raw) as [v|];
      [|intros [= <- <- <-] _; split; reflexivity].
    unfold run, delete_string, bind, findOneAndDelete.
    destruct (decodeURIComponent v);
      [|intros [= <- <- <-] [H|H]; discriminate H].
    destruct (List.find _ st); intros [= <- <- <-] [H|H]; discriminate H.
  - intros [= <- <- <-] [H|H]; discriminate H.
Qed.

Lemma filters_keys_fires (query : jsstring) :
  (filters_keys (parseNaturalLanguage toLowerCase query) =? 0)%nat
  = negb (fires (toLowerCase query)).
Proof.
  trigger_cases (toLowerCase query); reflexivity.
Qed.

(** The natural-language handler, on a query text that is not empty:
    when no trigger is met it answers that the query cannot be parsed and
    the store is not asked; otherwise it asks the store once, for the
    query of the parsed filter, and answers 200 with the documents found,
    the original text and the parsed filter. *)
Theorem natural_language_outcome (p : query_params) (query : jsstring)
  (st : store) :
  query <> [] -> qp_query p = Some (VStr query) ->
  let parsed := parseNaturalLanguage toLowerCase query in
  let data :=
    merge_sort newer_first (List.filter (matches (filters_query parsed)) st) in
  run (filter_by_natural_language toLowerCase p) st
  = if fires (toLowerCase query)
    then (Response 200 (BInterpreted data (List.length data) query parsed),
          st, [CallFind (filters_query parsed)])
    else (UnparsableQuery, st, []).
Proof.
  intros Hq Hp parsed data. unfold filter_by_natural_language. rewrite Hp.
  destruct query as [|c query]; [done|]. cbn [falsy].
  fold parsed. unfold parsed at 1. rewrite filters_keys_fires.
  destruct (fires (toLowerCase (c :: query))); reflexivity.
Qed.

Lemma filters_keys_zero (f : filters) : filters_keys f = 0%nat -> f = no_filters.
Proof using Type.
  clear. destruct f as [[?|] [?|] [?|] [?|] [?|]]; cbn; intros H;
    try discriminate H. reflexivity.
Qed.

(** The interpreter and the structured parameters go through the same
    filter: when the list handler reports a filter that is also what the
    interpreter makes of a query text, the natural-language handler finds
    the same documents, in the same order, with the same store call. *)
Theorem natural_language_same_selection (p p' : query_params)
  (query : jsstring) (st st' : store) (data : list doc) (n : nat)
  (f : filters) (tr : list store_call) :
  run (get_strings p) st = (Response 200 (BList data n f), st', tr) ->
  query <> [] -> qp_query p' = Some (VStr query) ->
  parseNaturalLanguage toLowerCase query = f -> f <> no_filters ->
  run (filter_by_natural_language toLowerCase p') st
  = (Response 200 (BInterpreted data n query f), st', tr).
Proof.
  intros H Hq Hp Hf Hne. apply get_strings_accepted in H as (-> & -> & -> & ->).
  unfold filter_by_natural_language. rewrite Hp.
  destruct query as [|c query]; [done|]. cbn [falsy]. rewrite Hf.
  destruct (filters_keys f =? 0)%nat eqn:E; [|reflexivity].
  apply Nat.eqb_eq, filters_keys_zero in E. contradiction.
Qed.

(** *** More on two creations in flight *)

Lemma duplicate_key_find (d : doc) (st : store) :
  duplicate_key d st = false ->
  List.find (fun x => str_eqb (doc_id x) (doc_id d)) st = None.
Proof using Type.
  clear. unfold duplicate_key. induction st as [|x st IH]; simpl; [done|].
  intros H. apply orb_false_iff in H as [Hx H].
  apply orb_false_iff in Hx as [-> _]. by apply IH.
Qed.

Lemma task_step_store_ok (v : jsstring) (now : Z) (t : task) (st : store) :
  creation_of toLowerCase sha256_hex v t -> store_ok sha256_hex st ->
  creation_of toLowerCase sha256_hex v
    (task_step toLowerCase sha256_hex now t st).1
  /\ store_ok sha256_hex (task_step toLowerCase sha256_hex now t st).2.
Proof.
  intros Ht Hok. destruct t as [value|checked|r].
  - simpl in Ht. subst value.
    unfold task_step, post_check, bind, findById, ret, reply.
    destruct (List.find _ st); cbn; split; done.
  - simpl in Ht. subst checked.
    unfold task_step, run, post_insert, bind, save, ret.
    change (prop_sha256_hash (computeProperties toLowerCase sha256_hex v))
      with (sha256_hex v).
    destruct (validates _); cbn [negb]; [|cbn; split; done].
    destruct (duplicate_key _ st) eqn:E; cbn -[computeProperties];
      (split; [done|]); [done|].
    apply store_ok_snoc; [done | reflexivity | by apply duplicate_key_find].
  - cbn. split; done.
Qed.

(** Under every schedule, two creations of one value in flight leave a
    store that satisfies the invariant: the race never puts two documents
    under one [_id] or one value. *)
Theorem concurrent_creates_keep_invariant (v : jsstring) (now1 now2 : Z)
  (schedule : list bool) (st : store) :
  store_ok sha256_hex st ->
  let arrived := Arrived (Some (VStr v)) in
  store_ok sha256_hex
    (interleave toLowerCase sha256_hex now1 now2 schedule arrived arrived st).2
  /\ (count_value v
        (interleave toLowerCase sha256_hex now1 now2 schedule arrived arrived st).2
      <= 1)%nat.
Proof.
  intros Hok arrived.
  assert (forall t1 t2 s,
            creation_of toLowerCase sha256_hex v t1 ->
            creation_of toLowerCase sha256_hex v t2 ->
            store_ok sha256_hex s ->
            store_ok sha256_hex
              (interleave toLowerCase sha256_hex now1 now2 schedule t1 t2 s).2)
    as H.
  { induction schedule as [|[|] rest IH]; intros t1 t2 s H1 H2 Hs.
    - exact Hs.
    - cbn [interleave].
      destruct (task_step_store_ok v now2 t2 s H2 Hs) as [H2' Hs'].
      destruct (task_step toLowerCase sha256_hex now2 t2 s) as [t2' s'].
      by apply IH.
    - cbn [interleave].
      destruct (task_step_store_ok v now1 t1 s H1 Hs) as [H1' Hs'].
      destruct (task_step toLowerCase sha256_hex now1 t1 s) as [t1' s'].
      by apply IH. }
  assert (store_ok sha256_hex
            (interleave toLowerCase sha256_hex now1 now2 schedule arrived
               arrived st).2) as Hfinal
    by (apply H; [reflexivity | reflexivity | exact Hok]).
  split; [exact Hfinal | by apply count_value_le].
Qed.

End Further.

(** ** The built-ins of the closed examples *)

Lemma toLowerCase_latin_lowers : lowers_basic_latin toLowerCase_latin.
Proof. intros s _. reflexivity. Qed.

Lemma decode_fuel_unescaped (s : jsstring) (fuel : nat) :
  forallb (fun c => negb (c =? 37)) s = true ->
  (List.length s < fuel)%nat -> decode_fuel fuel s = Some s.
Proof.
  revert fuel. induction s as [|c s IH]; intros fuel Hs Hf.
  - destruct fuel; [lia | reflexivity].
  - destruct fuel as [|fuel]; [simpl in Hf; lia|].
    simpl in Hs. apply andb_true_iff in Hs as [Hc Hs].
    apply negb_true_iff in Hc. cbn [decode_fuel]. rewrite Hc.
    rewrite IH; [reflexivity | exact Hs | simpl in Hf; lia].
Qed.

Lemma decodeURIComponent_utf8_unescaped :
  decodes_unescaped decodeURIComponent_utf8.
Proof.
  intros s Hs. unfold decodeURIComponent_utf8.
  apply decode_fuel_unescaped; [exact Hs | lia].
Qed.

(** ** The examples of the specification *)

(** [parseInt] reads a numeric prefix and is [NaN] only when there is
    none. *)
Example parseInt_examples :
  parseInt (lit "10") = Some (Finite 10)
  /\ parseInt (lit "12abc") = Some (Finite 12)
  /\ parseInt (lit "3.9") = Some (Finite 3)
  /\ parseInt (lit "1e3") = Some (Finite 1)
  /\ parseInt (lit " -7") = Some (Finite (-7))
  /\ parseInt (lit "0x1f") = Some (Finite 31)
  /\ parseInt (lit "ten") = None /\ parseInt (lit "") = None.
Proof. vm_compute. auto 10. Qed.

(** From 2^53 on [parseInt] rounds, and a run of 309 digits 9 is read as
    [Infinity]; 1 followed by 308 digits 0 is still finite. *)
Example parseInt_rounds :
  parseInt (lit "9007199254740992") = Some (Finite 9007199254740992)
  /\ parseInt (lit "9007199254740993") = Some (Finite 9007199254740992)
  /\ parseInt (lit "9007199254740995") = Some (Finite 9007199254740996)
  /\ parseInt (lit "-9007199254740993") = Some (Finite (-9007199254740992))
  /\ parseInt (List.repeat 57 309) = Some Infinity
  /\ parseInt (45 :: List.repeat 57 309) = Some NegInfinity
  /\ (exists z, parseInt (49 :: List.repeat 48 308) = Some (Finite z))
  /\ num_add (Finite 9007199254740992) 1 = Finite 9007199254740992
  /\ num_add Infinity (-1) = Infinity.
Proof.
  repeat split; try (vm_compute; reflexivity).
  eexists. vm_compute. reflexivity.
Qed.

Example analyze_racecar :
  let p := computeProperties toLowerCase_latin digest_of_units (lit "racecar") in
  prop_length p = 7%nat /\ prop_is_palindrome p = true
  /\ prop_unique_characters p = 4%nat /\ prop_word_count p = 1%nat.
Proof. vm_compute. auto. Qed.

Example analyze_hello_world :
  let p := computeProperties toLowerCase_latin digest_of_units
             (lit "Hello World") in
  prop_length p = 11%nat /\ prop_is_palindrome p = false
  /\ prop_unique_characters p = 8%nat /\ prop_word_count p = 2%nat
  /\ prop_character_frequency_map p
     = {[ lit "H" := 1%nat; lit "e" := 1%nat; lit "l" := 3%nat;
          lit "o" := 2%nat; lit " " := 1%nat; lit "W" := 1%nat;
          lit "r" := 1%nat; lit "d" := 1%nat ]}.
Proof. vm_compute. auto. Qed.

Example analyze_empty :
  let p := computeProperties toLowerCase_latin digest_of_units [] in
  prop_length p = 0%nat /\ prop_is_palindrome p = true
  /\ prop_unique_characters p = 0%nat /\ prop_word_count p = 0%nat
  /\ prop_character_frequency_map p = ∅.
Proof. vm_compute. auto. Qed.

(** The queries of the README. On the last one the [contain] pattern
    captures the [f] of [first], which the first-vowel rule then
    replaces. *)
Example readme_queries :
  parseNaturalLanguage toLowerCase_latin (lit "strings containing the letter z")
  = set_contains_character (lit "z") no_filters
  /\ flt_contains_character
       (rule_contains
          (lit "palindromic strings that contain the first vowel") no_filters)
     = Some (lit "f")
  /\ parseNaturalLanguage toLowerCase_latin
       (lit "palindromic strings that contain the first vowel")
     = set_contains_character (lit "a") (set_is_palindrome true no_filters).
Proof. vm_compute. auto. Qed.



(** ** Instances of the properties *)

Lemma palindrome_reverses_code_units_witness :
  toLowerCase_latin grinning_face = grinning_face
  /\ spec_is_palindrome toLowerCase_latin grinning_face
  /\ prop_is_palindrome
       (computeProperties toLowerCase_latin digest_of_units grinning_face)
     = false.
Proof.
  split; [reflexivity|].
  apply (palindrome_reverses_code_units toLowerCase_latin digest_of_units).
  reflexivity.
Defined.


Lemma concurrent_creates_race_witness :
  let d := {| doc_id := digest_of_units (lit "racecar");
              doc_value := lit "racecar";
              doc_properties :=
                computeProperties toLowerCase_latin digest_of_units
                  (lit "racecar");
              doc_created_at := 0 |} in
  let arrived := Arrived (Some (VStr (lit "racecar"))) in
  lit "racecar" <> []
  /\ interleave toLowerCase_latin digest_of_units 0 1
       [false; false; true; true] arrived arrived []
     = (Answered (Response 201 (BDoc d)), Answered Conflict, [d])
  /\ interleave toLowerCase_latin digest_of_units 0 1
       [false; true; false; true] arrived arrived []
     = (Answered (Response 201 (BDoc d)), Answered InternalError, [d]).
Proof.
  intros d arrived.
  assert (lit "racecar" <> []) as Hv by discriminate.
  split; [exact Hv|].
  exact (concurrent_creates_race toLowerCase_latin digest_of_units
           (lit "racecar") 0 1 Hv).
Defined.

Lemma natural_language_route_shadowed_witness :
  let req :=
    {| req_method := GET; req_path := natural_language_path;
       req_query :=
         {| qp_is_palindrome := None; qp_min_length := None;
            qp_max_length := None; qp_word_count := None;
            qp_contains_character := None;
            qp_query := Some (VStr (lit "all single word palindromic strings")) |};
       req_body_value := None |} in
  decodes_unescaped decodeURIComponent_utf8
  /\ run (app toLowerCase_latin digest_of_units decodeURIComponent_utf8 req 0) []
     = (NotFound, [], [CallFindOne (lit "filter-by-natural-language")]).
Proof.
  intros req. split; [exact decodeURIComponent_utf8_unescaped|].
  apply (natural_language_route_shadowed toLowerCase_latin digest_of_units
           decodeURIComponent_utf8 (req_query req) None 0 []
           decodeURIComponent_utf8_unescaped).
  intros (d & Hd & _). inversion Hd.
Defined.

Lemma interpret_examples_witness :
  lowers_basic_latin toLowerCase_latin
  /\ parseNaturalLanguage toLowerCase_latin (lit "xyz") = no_filters.
Proof.
  split; [exact toLowerCase_latin_lowers|].
  apply (interpret_examples toLowerCase_latin toLowerCase_latin_lowers).
Defined.

Lemma first_vowel_overwrites_witness :
  let query := lit "Strings containing the letter z and the First Vowel" in
  includes (toLowerCase_latin query) (lit "first vowel") = true
  /\ flt_contains_character
       (rule_contains (toLowerCase_latin query) no_filters) = Some (lit "z")
  /\ flt_contains_character (parseNaturalLanguage toLowerCase_latin query)
     = Some (lit "a").
Proof.
  intros query. split; [reflexivity|]. split; [reflexivity|].
  apply (first_vowel_overwrites toLowerCase_latin query). reflexivity.
Defined.


Lemma is_palindrome_never_rejected_witness :
  let p := {| qp_is_palindrome := Some (VStr (lit "TRUE"));
              qp_min_length := None; qp_max_length := None;
              qp_word_count := None; qp_contains_character := None;
              qp_query := None |} in
  let f := set_is_palindrome false no_filters in
  qp_is_palindrome p = Some (VStr (lit "TRUE"))
  /\ ~ not_an_integer (qp_min_length p)
  /\ ~ not_an_integer (qp_max_length p)
  /\ ~ not_an_integer (qp_word_count p)
  /\ ~ not_one_character (qp_contains_character p)
  /\ run (get_strings p) []
     = (Response 200 (BList [] 0 f), [], [CallFind (filters_query f)])
  /\ (exists data f',
        run (get_strings p) []
        = (Response 200 (BList data (List.length data) f'), [],
           [CallFind (filters_query f')])
        /\ flt_is_palindrome f' = Some false)
  /\ (exists q, [CallFind (filters_query f)] = [CallFind q]
        /\ q_is_palindrome q = flt_is_palindrome f
        /\ (VStr (lit "TRUE") = VStr (lit "true") ->
            flt_is_palindrome f = Some true)
        /\ (VStr (lit "TRUE") <> VStr (lit "true") ->
            flt_is_palindrome f = Some false)).
Proof.
  intros p f.
  assert (forall o, o = None -> ~ not_an_integer o) as Hint
    by (intros o -> (v & H & _); discriminate H).
  assert (~ not_one_character (qp_contains_character p)) as Hcc
    by (intros (v & H & _); discriminate H).
  assert (run (get_strings p) []
          = (Response 200 (BList [] 0 f), [], [CallFind (filters_query f)]))
    as Hrun by reflexivity.
  pose proof (is_palindrome_never_rejected p (VStr (lit "TRUE")) [] eq_refl)
    as (_ & Hset & _ & Hacc & _).
  split; [reflexivity|]. split; [exact (Hint _ eq_refl)|].
  split; [exact (Hint _ eq_refl)|]. split; [exact (Hint _ eq_refl)|].
  split; [exact Hcc|]. split; [exact Hrun|]. split.
  - exact (Hacc (Hint _ eq_refl) (Hint _ eq_refl) (Hint _ eq_refl) Hcc).
  - exact (Hset _ _ _ _ _ Hrun).
Defined.

(** ** Instances of the further properties *)

Lemma is_palindrome_bmp_witness :
  bmp_only (remove_spaces (toLowerCase_latin (lit "Was it a cat I saw")))
  /\ (prop_is_palindrome
        (computeProperties toLowerCase_latin digest_of_units
           (lit "Was it a cat I saw")) = true
      <-> spec_is_palindrome toLowerCase_latin (lit "Was it a cat I saw")).
Proof.
  assert (bmp_only (remove_spaces (toLowerCase_latin (lit "Was it a cat I saw"))))
    as H by (apply bmp_only_forallb; vm_compute; reflexivity).
  split; [exact H|].
  exact (is_palindrome_bmp toLowerCase_latin digest_of_units _ H).
Defined.

Lemma blank_is_palindrome_witness :
  toLowerCase_latin (lit "   ") = lit "   "
  /\ forallb is_space (lit "   ") = true
  /\ prop_is_palindrome
       (computeProperties toLowerCase_latin digest_of_units (lit "   ")) = true.
Proof.
  split; [reflexivity|]. split; [reflexivity|].
  apply (blank_is_palindrome toLowerCase_latin digest_of_units);
    reflexivity.
Defined.

Lemma length_code_points_bmp_witness :
  bmp_only (lit "racecar")
  /\ prop_length
       (computeProperties toLowerCase_latin digest_of_units (lit "racecar"))
     = code_points (lit "racecar").
Proof.
  assert (bmp_only (lit "racecar")) as H
    by (apply bmp_only_forallb; vm_compute; reflexivity).
  split; [exact H|].
  exact (length_code_points_bmp toLowerCase_latin digest_of_units _ H).
Defined.

Lemma reachable_store_ok_witness :
  let req := {| req_method := POST; req_path := [lit "strings"];
                req_query := no_params;
                req_body_value := Some (VStr (lit "racecar")) |} in
  let st := (run (app toLowerCase_latin digest_of_units
                    decodeURIComponent_utf8 req 0) []).1.2 in
  reachable toLowerCase_latin digest_of_units decodeURIComponent_utf8 st
  /\ store_ok digest_of_units st.
Proof.
  intros req st.
  assert (reachable toLowerCase_latin digest_of_units decodeURIComponent_utf8 st)
    as H by (apply reach_step, reach_empty).
  split; [exact H|].
  exact (reachable_store_ok toLowerCase_latin digest_of_units
           decodeURIComponent_utf8 st H).
Defined.

Lemma reachable_consistent_witness :
  let req := {| req_method := POST; req_path := [lit "strings"];
                req_query := no_params;
                req_body_value := Some (VStr (lit "racecar")) |} in
  let st := (run (app toLowerCase_latin digest_of_units
                    decodeURIComponent_utf8 req 0) []).1.2 in
  reachable toLowerCase_latin digest_of_units decodeURIComponent_utf8 st
  /\ store_derived toLowerCase_latin digest_of_units st
  /\ Forall (fun d => doc_id d = prop_sha256_hash (doc_properties d)) st
  /\ forall v, (count_value v st <= 1)%nat.
Proof.
  intros req st.
  assert (reachable toLowerCase_latin digest_of_units decodeURIComponent_utf8 st)
    as H by (apply reach_step, reach_empty).
  split; [exact H|].
  exact (reachable_consistent toLowerCase_latin digest_of_units
           decodeURIComponent_utf8 st H).
Defined.

Lemma natural_language_outcome_witness :
  let query := lit "all single word palindromic strings" in
  let p := {| qp_is_palindrome := None; qp_min_length := None;
              qp_max_length := None; qp_word_count := None;
              qp_contains_character := None;
              qp_query := Some (VStr query) |} in
  query <> [] /\ qp_query p = Some (VStr query)
  /\ run (filter_by_natural_language toLowerCase_latin p) []
     = (Response 200
          (BInterpreted [] 0 query
             (set_word_count (Finite 1) (set_is_palindrome true no_filters))),
        [],
        [CallFind
           (filters_query
              (set_word_count (Finite 1) (set_is_palindrome true no_filters)))]).
Proof.
  intros query p.
  assert (query <> []) as Hq by discriminate.
  split; [exact Hq|]. split; [reflexivity|].
  exact (eq_trans
           (natural_language_outcome toLowerCase_latin p query [] Hq eq_refl)
           eq_refl).
Defined.

Lemma get_strings_selects_witness :
  let d := new_document toLowerCase_latin digest_of_units (lit "racecar") 0 in
  let e := new_document toLowerCase_latin digest_of_units (lit "Hello World") 1 in
  let p := {| qp_is_palindrome := Some (VStr (lit "true"));
              qp_min_length := None; qp_max_length := None;
              qp_word_count := None; qp_contains_character := None;
              qp_query := None |} in
  let f := set_is_palindrome true no_filters in
  run (get_strings p) [d; e]
  = (Response 200 (BList [d] 1 f), [d; e], [CallFind (filters_query f)])
  /\ (forall x, x ∈ [d] <-> x ∈ [d; e] /\ passes f x).
Proof.
  intros d e p f.
  assert (run (get_strings p) [d; e]
          = (Response 200 (BList [d] 1 f), [d; e], [CallFind (filters_query f)]))
    as H by (vm_compute; reflexivity).
  split; [exact H|].
  assert (flt_contains_character f <> Some (lit ".")) as H1 by discriminate.
  assert (flt_contains_character f <> Some (lit "$")) as H2 by discriminate.
  exact (proj1 (proj2 (proj2 (get_strings_selects p _ _ _ _ _ _ H H1 H2)))).
Defined.

Lemma get_strings_without_filter_witness :
  let d := new_document toLowerCase_latin digest_of_units (lit "racecar") 0 in
  let e := new_document toLowerCase_latin digest_of_units (lit "Hello World") 1 in
  run (get_strings no_params) [d; e]
  = (Response 200 (BList (merge_sort newer_first [d; e]) 2 no_filters),
     [d; e], [CallFind no_query])
  /\ merge_sort newer_first [d; e] = [e; d].
Proof.
  intros d e. split; [|vm_compute; reflexivity].
  exact (proj1 (get_strings_without_filter no_params [d; e]
                  eq_refl eq_refl eq_refl eq_refl eq_refl)).
Defined.

Lemma get_strings_empty_range_witness :
  let d := new_document toLowerCase_latin digest_of_units (lit "racecar") 0 in
  let p := {| qp_is_palindrome := None;
              qp_min_length := Some (VStr (lit "9"));
              qp_max_length := Some (VStr (lit "3"));
              qp_word_count := None; qp_contains_character := None;
              qp_query := None |} in
  let f := set_max_length (Finite 3) (set_min_length (Finite 9) no_filters) in
  run (get_strings p) [d]
  = (Response 200 (BList [] 0 f), [d], [CallFind (filters_query f)])
  /\ ([] : list doc) = [] /\ 0%nat = 0%nat.
Proof.
  intros d p f.
  assert (run (get_strings p) [d]
          = (Response 200 (BList [] 0 f), [d], [CallFind (filters_query f)]))
    as H by (vm_compute; reflexivity).
  split; [exact H|].
  apply (get_strings_empty_range p _ _ _ _ _ _ (Finite 9) (Finite 3) H);
    reflexivity.
Defined.

Lemma contains_character_selects_witness :
  let d := new_document toLowerCase_latin digest_of_units (lit "racecar") 0 in
  store_derived toLowerCase_latin digest_of_units [d]
  /\ exists data,
       run (get_strings
              {| qp_is_palindrome := None; qp_min_length := None;
                 qp_max_length := None; qp_word_count := None;
                 qp_contains_character := Some (VStr (lit "e"));
                 qp_query := None |}) [d]
       = (Response 200
            (BList data (List.length data)
               (set_contains_character (lit "e") no_filters)),
          [d],
          [CallFind (filters_query (set_contains_character (lit "e") no_filters))])
       /\ forall x, x ∈ data <-> x ∈ [d] /\ lit "e" ∈ chars (doc_value x).
Proof.
  intros d.
  assert (store_derived toLowerCase_latin digest_of_units [d]) as H
    by (apply Forall_singleton; reflexivity).
  split; [exact H|].
  assert (lit "e" <> lit ".") as H1 by discriminate.
  assert (lit "e" <> lit "$") as H2 by discriminate.
  exact (contains_character_selects toLowerCase_latin digest_of_units [d]
           (lit "e") None H eq_refl H1 H2).
Defined.

Lemma natural_language_same_selection_witness :
  let query := lit "palindromic strings" in
  let p := {| qp_is_palindrome := Some (VStr (lit "true"));
              qp_min_length := None; qp_max_length := None;
              qp_word_count := None; qp_contains_character := None;
              qp_query := None |} in
  let p' := {| qp_is_palindrome := None; qp_min_length := None;
               qp_max_length := None; qp_word_count := None;
               qp_contains_character := None;
               qp_query := Some (VStr query) |} in
  let d := new_document toLowerCase_latin digest_of_units (lit "racecar") 0 in
  let f := set_is_palindrome true no_filters in
  run (get_strings p) [d]
  = (Response 200 (BList [d] 1 f), [d], [CallFind (filters_query f)])
  /\ run (filter_by_natural_language toLowerCase_latin p') [d]
     = (Response 200 (BInterpreted [d] 1 query f), [d],
        [CallFind (filters_query f)]).
Proof.
  intros query p p' d f.
  assert (run (get_strings p) [d]
          = (Response 200 (BList [d] 1 f), [d], [CallFind (filters_query f)]))
    as H by (vm_compute; reflexivity).
  split; [exact H|].
  apply (natural_language_same_selection toLowerCase_latin p p' query
           _ _ _ _ _ _ H);
    [discriminate | reflexivity | vm_compute; reflexivity | discriminate].
Defined.

Lemma create_outcomes_witness :
  let d := new_document toLowerCase_latin digest_of_units (lit "racecar") 0 in
  store_ok digest_of_units []
  /\ run (post_strings toLowerCase_latin digest_of_units
            (Some (VStr (lit "racecar"))) 0) []
     = (Response 201 (BDoc d), [d],
        [CallFindById (digest_of_units (lit "racecar")); CallSave d])
  /\ (status (Response 201 (BDoc d)) <> 201%nat -> [d] = []).
Proof.
  intros d.
  assert (store_ok digest_of_units []) as Hok by (split; constructor).
  assert (run (post_strings toLowerCase_latin digest_of_units
                 (Some (VStr (lit "racecar"))) 0) []
          = (Response 201 (BDoc d), [d],
             [CallFindById (digest_of_units (lit "racecar")); CallSave d]))
    as H by reflexivity.
  split; [exact Hok|]. split; [exact H|].
  exact (proj2 (proj2 (proj2 (create_outcomes toLowerCase_latin
                                digest_of_units _ _ _ _ _ _ Hok H)))).
Defined.

Lemma create_then_get_witness :
  let d := new_document toLowerCase_latin digest_of_units (lit "racecar") 0 in
  store_ok digest_of_units []
  /\ decodeURIComponent_utf8 (lit "racecar") = Some (lit "racecar")
  /\ run (get_string decodeURIComponent_utf8 (lit "racecar")) [d]
     = (Response 200 (BDoc d), [d], [CallFindOne (lit "racecar")]).
Proof.
  intros d.
  assert (store_ok digest_of_units []) as Hok by (split; constructor).
  assert (decodeURIComponent_utf8 (lit "racecar") = Some (lit "racecar"))
    as Hdec by (vm_compute; reflexivity).
  split; [exact Hok|]. split; [exact Hdec|].
  apply (create_then_get toLowerCase_latin digest_of_units
           decodeURIComponent_utf8 (lit "racecar") 0 [] [d]
           (Response 201 (BDoc d))
           [CallFindById (digest_of_units (lit "racecar")); CallSave d]
           Hok Hdec); reflexivity.
Defined.

Lemma delete_outcomes_witness :
  let d := new_document toLowerCase_latin digest_of_units (lit "racecar") 0 in
  store_ok digest_of_units [d]
  /\ decodeURIComponent_utf8 (lit "racecar") = Some (lit "racecar")
  /\ has_value (lit "racecar") [d]
  /\ run (delete_string decodeURIComponent_utf8 (lit "racecar")) [d]
     = (Response 204 BEmpty, remove_value (lit "racecar") [d],
        [CallFindOneAndDelete (lit "racecar")])
  /\ remove_value (lit "racecar") [d] = [].
Proof.
  intros d.
  assert (store_ok digest_of_units [d]) as Hok
    by (split; [apply NoDup_singleton | apply Forall_singleton; reflexivity]).
  assert (decodeURIComponent_utf8 (lit "racecar") = Some (lit "racecar"))
    as Hdec by (vm_compute; reflexivity).
  assert (has_value (lit "racecar") [d]) as Hv
    by (exists d; split; [apply list_elem_of_singleton; reflexivity | reflexivity]).
  split; [exact Hok|]. split; [exact Hdec|]. split; [exact Hv|].
  split; [|vm_compute; reflexivity].
  exact (proj1 (proj1 (delete_outcomes digest_of_units decodeURIComponent_utf8
                         (lit "racecar") [d] Hok Hdec) Hv)).
Defined.

Lemma create_after_delete_witness :
  let d := new_document toLowerCase_latin digest_of_units (lit "racecar") 0 in
  let d' := new_document toLowerCase_latin digest_of_units (lit "racecar") 5 in
  store_ok digest_of_units [d] /\ lit "racecar" <> []
  /\ has_value (lit "racecar") [d]
  /\ run (post_strings toLowerCase_latin digest_of_units
            (Some (VStr (lit "racecar"))) 5) (remove_value (lit "racecar") [d])
     = (Response 201 (BDoc d'), remove_value (lit "racecar") [d] ++ [d'],
        [CallFindById (digest_of_units (lit "racecar")); CallSave d']).
Proof.
  intros d d'.
  assert (store_ok digest_of_units [d]) as Hok
    by (split; [apply NoDup_singleton | apply Forall_singleton; reflexivity]).
  assert (has_value (lit "racecar") [d]) as Hv
    by (exists d; split; [apply list_elem_of_singleton; reflexivity | reflexivity]).
  assert (lit "racecar" <> []) as Hne by discriminate.
  split; [exact Hok|]. split; [exact Hne|]. split; [exact Hv|].
  exact (create_after_delete toLowerCase_latin digest_of_units
           (lit "racecar") 5 [d] Hok Hne Hv).
Defined.

Lemma get_decodes_twice_witness :
  let d := new_document toLowerCase_latin digest_of_units (lit "A") 0 in
  let e := new_document toLowerCase_latin digest_of_units (lit "%41") 1 in
  lit "%2541" <> []
  /\ decodeURIComponent_utf8 (lit "%2541") = Some (lit "%41")
  /\ decodeURIComponent_utf8 (lit "%41") = Some (lit "A")
  /\ run (app toLowerCase_latin digest_of_units decodeURIComponent_utf8
            {| req_method := GET; req_path := [lit "strings"; lit "%2541"];
               req_query := no_params; req_body_value := None |} 2) [d; e]
     = (Response 200 (BDoc d), [d; e], [CallFindOne (lit "A")]).
Proof.
  intros d e.
  assert (lit "%2541" <> []) as Hne by discriminate.
  assert (decodeURIComponent_utf8 (lit "%2541") = Some (lit "%41")) as H1
    by (vm_compute; reflexivity).
  assert (decodeURIComponent_utf8 (lit "%41") = Some (lit "A")) as H2
    by (vm_compute; reflexivity).
  split; [exact Hne|]. split; [exact H1|]. split; [exact H2|].
  exact (proj2 (get_decodes_twice toLowerCase_latin digest_of_units
                  decodeURIComponent_utf8 (lit "%2541") (lit "%41") no_params
                  None 2 [d; e] Hne H1) (lit "A") H2).
Defined.

Lemma get_requests_read_only_witness :
  let req := {| req_method := GET; req_path := [lit "health"];
                req_query := no_params; req_body_value := None |} in
  req_method req = GET
  /\ (run (app toLowerCase_latin digest_of_units decodeURIComponent_utf8
             req 0) []).1.2 = [].
Proof.
  intros req. split; [reflexivity|].
  exact (proj1 (get_requests_read_only toLowerCase_latin digest_of_units
                  decodeURIComponent_utf8 req 0 [] eq_refl)).
Defined.

Lemma validation_before_store_witness :
  let req := {| req_method := POST; req_path := [lit "strings"];
                req_query := no_params; req_body_value := Some (VOther [] true) |} in
  run (app toLowerCase_latin digest_of_units decodeURIComponent_utf8 req 0) []
  = (InvalidType, [], [])
  /\ (status InvalidType = 400%nat \/ status InvalidType = 422%nat)
  /\ ([] : list store_call) = [] /\ ([] : store) = [].
Proof.
  intros req.
  assert (run (app toLowerCase_latin digest_of_units decodeURIComponent_utf8
                 req 0) [] = (InvalidType, [], [])) as H by reflexivity.
  assert (status InvalidType = 400%nat \/ status InvalidType = 422%nat) as Hs
    by (right; reflexivity).
  split; [exact H|]. split; [exact Hs|].
  exact (validation_before_store toLowerCase_latin digest_of_units
           decodeURIComponent_utf8 req 0 [] [] InvalidType [] H Hs).
Defined.

Lemma concurrent_creates_keep_invariant_witness :
  store_ok digest_of_units []
  /\ store_ok digest_of_units
       (interleave toLowerCase_latin digest_of_units 0 1
          [false; true; false; true]
          (Arrived (Some (VStr (lit "racecar"))))
          (Arrived (Some (VStr (lit "racecar")))) []).2.
Proof.
  assert (store_ok digest_of_units []) as Hok by (split; constructor).
  split; [exact Hok|].
  exact (proj1 (concurrent_creates_keep_invariant toLowerCase_latin
                  digest_of_units (lit "racecar") 0 1
                  [false; true; false; true] [] Hok)).
Defined.
